(** * REINFORCE trainer of [main.py]: a shallow embedding and its properties

    The development follows [main()] of [main.py], from the stacking of the
    loaded feature files to the final checkpoint save.

    - Floating-point numbers are modelled as exact rationals extended with
      the three IEEE special values; rounding and overflow are not modelled.
    - A scalar torch tensor is its value together with its gradient with
      respect to the policy parameters, which is what [cost.backward()]
      leaves for the optimizer.
    - The policy network, the Bernoulli distribution, the reward function
      and the optimizer are collaborators: they are the fields of the
      record [Collab], over which the trainer is defined.
    - Exceptions, the process state (local variables of [main], the random
      generator, the [selection/] directory, the checkpoint files) and a
      ghost trace of the calls made are threaded by a state-and-error
      monad. *)

From Stdlib Require Import QArith ZArith Lia Lqa.
From Stdlib Require Import Ascii String.
From stdpp Require Import base list strings gmap pretty.

Open Scope Q_scope.

(** ** Numbers *)

Module Num.

Inductive num : Type :=
| Fin (q : Q)
| PInf
| NInf
| NaN.

Definition is_finite (x : num) : bool :=
  match x with Fin _ => true | _ => false end.

Definition of_Z (z : Z) : num := Fin (inject_Z z).

Definition fneg (x : num) : num :=
  match x with
  | Fin q => Fin (- q)
  | PInf => NInf
  | NInf => PInf
  | NaN => NaN
  end.

Definition fadd (x y : num) : num :=
  match x, y with
  | NaN, _ | _, NaN => NaN
  | Fin a, Fin b => Fin (a + b)
  | PInf, NInf | NInf, PInf => NaN
  | PInf, _ | _, PInf => PInf
  | NInf, _ | _, NInf => NInf
  end.

Definition fsub (x y : num) : num := fadd x (fneg y).

(** The infinity of the sign of [q] times [pos]; [0 * inf] is NaN. *)
Definition inf_of_sign (q : Q) (pos : bool) : num :=
  match Qcompare q 0 with
  | Eq => NaN
  | Gt => if pos then PInf else NInf
  | Lt => if pos then NInf else PInf
  end.

Definition fmul (x y : num) : num :=
  match x, y with
  | NaN, _ | _, NaN => NaN
  | Fin a, Fin b => Fin (a * b)
  | Fin a, PInf | PInf, Fin a => inf_of_sign a true
  | Fin a, NInf | NInf, Fin a => inf_of_sign a false
  | PInf, PInf | NInf, NInf => PInf
  | PInf, NInf | NInf, PInf => NInf
  end.

(** Division by a count, as [np.mean] and [Tensor.mean] do; [0/0] and
    [inf/0] never arise from a finite value and a positive count, and the
    empty mean is NaN. *)
Definition fdiv_nat (x : num) (n : nat) : num :=
  match n with
  | O => match x with
         | Fin q => inf_of_sign q true
         | PInf => PInf
         | NInf => NInf
         | NaN => NaN
         end
  | S _ => match x with
           | Fin q => Fin (q / inject_Z (Z.of_nat n))
           | _ => x
           end
  end.

(** [x > y]: false as soon as one side is NaN. *)
Definition fgt (x y : num) : bool :=
  match x, y with
  | NaN, _ | _, NaN => false
  | Fin a, Fin b => negb (Qle_bool a b)
  | PInf, PInf => false
  | PInf, _ => true
  | _, PInf => false
  | NInf, _ => false
  | Fin _, NInf => true
  end.

(** [x <= y]: false as soon as one side is NaN. *)
Definition fle (x y : num) : bool :=
  match x, y with
  | NaN, _ | _, NaN => false
  | _, _ => negb (fgt x y)
  end.

Definition fsum (l : list num) : num := fold_left fadd l (Fin 0).

Definition fmean (l : list num) : num := fdiv_nat (fsum l) (length l).

(** Equality of numbers: rationals up to [Qeq], the special values as
    themselves. *)
Definition feq (x y : num) : Prop :=
  match x, y with
  | Fin a, Fin b => a == b
  | PInf, PInf | NInf, NInf | NaN, NaN => True
  | _, _ => False
  end.

End Num.
Export Num.

Declare Scope num_scope.
Delimit Scope num_scope with num.
Bind Scope num_scope with num.
Infix "+" := fadd : num_scope.
Infix "-" := fsub : num_scope.
Infix "*" := fmul : num_scope.
Infix "≈" := feq (at level 70, no associativity) : num_scope.

(** ** Tensors *)

(** A scalar tensor of the autograd graph: its value and, for each
    coordinate of the policy parameters, the partial derivative that
    [backward] computes. *)
Record tensor : Type := Tensor { val : num; grad : nat -> num }.

(** [t - u], as in [cost -= expected_reward] *)
Definition tsub (t u : tensor) : tensor :=
  Tensor (val t - val u) (fun i => grad t i - grad u i)%num.

(** [t - c] for a Python float [c], as in [probs.mean() - 0.5] *)
Definition tsubc (t : tensor) (c : num) : tensor :=
  Tensor (val t - c) (grad t).

(** [c * t] for a Python float [c], as in [args.beta * (...)] *)
Definition tscale (c : num) (t : tensor) : tensor :=
  Tensor (c * val t) (fun i => c * grad t i)%num.

(** [t * c] for a value [c] outside the graph, as in
    [log_probs.mean() * (reward - baseline)] *)
Definition tmulc (t : tensor) (c : num) : tensor :=
  Tensor (val t * c) (fun i => grad t i * c)%num.

(** [t ** 2] *)
Definition tsq (t : tensor) : tensor :=
  Tensor (val t * val t) (fun i => Fin 2 * val t * grad t i)%num.

(** [ts.mean()] of a tensor with entries [ts] *)
Definition tmean (ts : list tensor) : tensor :=
  Tensor (fmean (map val ts))
         (fun i => fmean (map (fun t => grad t i) ts)).

(** ** Python lists *)

(** [l[i]]: a negative index counts from the end, an index out of range
    raises [IndexError] ([None] here). *)
Definition py_index {A} (l : list A) (i : Z) : option A :=
  let n := Z.of_nat (length l) in
  if decide (0 <= i < n)%Z then l !! Z.to_nat i
  else if decide (- n <= i < 0)%Z then l !! Z.to_nat (n + i)
  else None.

(** The bound of a slice, brought into [0..n]. *)
Definition py_bound (n i : Z) : Z :=
  if decide (i < 0)%Z then Z.max (i + n) 0 else Z.min i n.

(** [l[lo:hi]] *)
Definition py_slice {A} (l : list A) (lo hi : Z) : list A :=
  let n := Z.of_nat (length l) in
  let lo' := py_bound n lo in
  let hi' := py_bound n hi in
  take (Z.to_nat (hi' - lo')) (drop (Z.to_nat lo') l).

(** The line terminator that [main] writes after each identifier. *)
Definition newline : string := String "010"%char EmptyString.

(** ** Exceptions and results *)

Inductive exn : Type :=
| UnboundLocalError (name : string)
| IndexError
| ValueError
| FileNotFoundError (path : string)
| Raised (origin : string).  (* an error raised inside the collaborator *)

Inductive result (A : Type) : Type :=
| Ok (a : A)
| Err (e : exn).
Arguments Ok {A} a.
Arguments Err {A} e.

(** ** Command line *)

(** The options of the parser that [main] reads after the data is loaded.
    [stepsize] and [gamma] only build a scheduler that is never stepped. *)
Record args : Type := Args {
  hidden_dim : Z;
  lr : num;
  weight_decay : num;
  max_epoch : Z;
  num_episode : Z;
  start_idx : Z;
  number_of_picks : Z;
  classes : Z;
  beta : num;
  save_dir : string;
  resume : string
}.

(** ** Ghost trace *)

Inductive event : Type :=
| EvForward                                  (* [model(seq)] is called *)
| EvSample (actions : list bool)             (* [m.sample()] returned *)
| EvReward (picks : Z)                       (* [compute_reward] is called *)
| EvEpisode (log_prob_mean : tensor) (reward : num) (pick_idxs : list Z)
                                             (* an episode is scored *)
| EvStep (cost : tensor)                     (* [optimizer.step()] *)
| EvPrint (epoch max : Z) (mean : num)       (* the epoch line on stdout *)
| EvWrite (path : string).                   (* the selection record is closed *)

Definition is_forward (e : event) : bool :=
  match e with EvForward => true | _ => false end.
Definition is_write (e : event) : bool :=
  match e with EvWrite _ => true | _ => false end.

(** The events of the episode loop, lines 130 to 139. *)
Definition is_episode_event (e : event) : bool :=
  match e with
  | EvSample _ | EvReward _ | EvEpisode _ _ _ => true
  | _ => false
  end.

(** The per-epoch mean rewards printed so far, oldest first. *)
Fixpoint printed_means (tr : list event) : list num :=
  match tr with
  | [] => []
  | EvPrint _ _ m :: tr' => m :: printed_means tr'
  | _ :: tr' => printed_means tr'
  end.

(** The rewards of the episodes scored so far, oldest first. *)
Fixpoint episode_rewards (tr : list event) : list num :=
  match tr with
  | [] => []
  | EvEpisode _ r _ :: tr' => r :: episode_rewards tr'
  | _ :: tr' => episode_rewards tr'
  end.

(** The episodes scored so far: the mean log-probability, the reward and
    the indices picked, oldest first. *)
Fixpoint scored (tr : list event) : list (tensor * num * list Z) :=
  match tr with
  | [] => []
  | EvEpisode lp r pi :: tr' => (lp, r, pi) :: scored tr'
  | _ :: tr' => scored tr'
  end.

(** The costs the optimizer stepped on so far, oldest first. *)
Fixpoint step_costs (tr : list event) : list tensor :=
  match tr with
  | [] => []
  | EvStep c :: tr' => c :: step_costs tr'
  | _ :: tr' => step_costs tr'
  end.

(** ** Collaborators *)

(** What [main] takes from [models], [rewards], [torch] and [numpy]. *)
Record Collab : Type := {
  Params : Type;      (* the state dict of the policy network *)
  OptState : Type;    (* the moments and step count of Adam *)
  Rng : Type;         (* torch's random generator *)
  Feat : Type;        (* one loaded feature array *)
  Dist : Type;        (* a [Bernoulli] distribution object *)
  (* [DSN(in_dim, hid_dim)]: fresh parameters drawn from the generator *)
  DSN : Z -> Z -> Rng -> Params * Rng;
  (* [torch.optim.Adam(model.parameters(), lr, weight_decay)] *)
  Adam : num -> num -> OptState;
  (* [model(seq)]: one probability per position; [None]: the call raises *)
  forward : Params -> list Feat -> option (list tensor);
  (* [Bernoulli(probs)]; [None]: the call raises *)
  Bernoulli : list tensor -> option Dist;
  (* [m.sample()] *)
  sample : Dist -> Rng -> list bool * Rng;
  (* [m.log_prob(actions)] *)
  log_prob : Dist -> list bool -> list tensor;
  (* [compute_reward(seq, actions, probs, nc, picks)]: the reward, a value
     outside the graph, and the indices picked; [None]: the call raises *)
  compute_reward :
    list Feat -> list bool -> list tensor -> Z -> Z -> option (num * list Z);
  (* [zero_grad(); cost.backward(); optimizer.step()] on the gradient of
     the cost *)
  optim_step : OptState -> Params -> (nat -> num) -> OptState * Params
}.

(** ** The process state and its monad *)

Section Trainer.

Context (C : Collab).

(** What the process starts with: the generator after [torch.manual_seed],
    the checkpoint files on disk, the files of [./selection/]. *)
Record world : Type := World {
  w_rng : Rng C;
  w_ckpts : gmap string (Params C);
  w_selection : gmap string string
}.

(** The local variables of [main] that outlive an epoch, and the world. *)
Record state : Type := State {
  params : Params C;             (* [model]'s state dict *)
  opt : OptState C;              (* [optimizer] *)
  rng : Rng C;
  start_epoch : option Z;        (* [None]: the name is unbound *)
  baseline : num;
  best_reward : num;
  best_pi : list Z;
  ckpts : gmap string (Params C);
  selection : gmap string string;  (* path to content *)
  trace : list event             (* ghost: oldest first *)
}.

Definition set_net (o : OptState C) (p : Params C) (s : state) : state :=
  State p o (rng s) (start_epoch s) (baseline s) (best_reward s) (best_pi s)
        (ckpts s) (selection s) (trace s).
Definition set_rng (r : Rng C) (s : state) : state :=
  State (params s) (opt s) r (start_epoch s) (baseline s) (best_reward s)
        (best_pi s) (ckpts s) (selection s) (trace s).
Definition set_baseline (b : num) (s : state) : state :=
  State (params s) (opt s) (rng s) (start_epoch s) b (best_reward s)
        (best_pi s) (ckpts s) (selection s) (trace s).
Definition set_best (r : num) (pi : list Z) (s : state) : state :=
  State (params s) (opt s) (rng s) (start_epoch s) (baseline s) r pi
        (ckpts s) (selection s) (trace s).
Definition set_ckpts (k : gmap string (Params C)) (s : state) : state :=
  State (params s) (opt s) (rng s) (start_epoch s) (baseline s)
        (best_reward s) (best_pi s) k (selection s) (trace s).
Definition set_selection (f : gmap string string) (s : state) : state :=
  State (params s) (opt s) (rng s) (start_epoch s) (baseline s)
        (best_reward s) (best_pi s) (ckpts s) f (trace s).
Definition set_trace (t : list event) (s : state) : state :=
  State (params s) (opt s) (rng s) (start_epoch s) (baseline s)
        (best_reward s) (best_pi s) (ckpts s) (selection s) t.

(** A computation: it reads and writes the state, and returns or raises. *)
Definition M (A : Type) : Type := state -> state * result A.

Definition ret {A} (a : A) : M A := fun s => (s, Ok a).
Definition raise {A} (e : exn) : M A := fun s => (s, Err e).
Definition bind {A B} (m : M A) (k : A -> M B) : M B :=
  fun s => match m s with
           | (s', Ok a) => k a s'
           | (s', Err e) => (s', Err e)
           end.
(** The answer of the collaborator [origin]. *)
Definition lift {A} (origin : string) (o : option A) : M A :=
  fun s => match o with
           | Some a => (s, Ok a)
           | None => (s, Err (Raised origin))
           end.
Definition gets {A} (f : state -> A) : M A := fun s => (s, Ok (f s)).
Definition modify (f : state -> state) : M unit := fun s => (f s, Ok tt).
Definition emit (e : event) : M unit :=
  modify (fun s => set_trace (trace s ++ [e]) s).

Notation "'let!' x ':=' m 'in' k" := (bind m (fun x => k))
  (at level 10, x pattern, m at level 100, k at level 200).
Notation "m '>>' k" := (bind m (fun _ => k))
  (at level 100, k at level 200, right associativity).

(** [for _ in range(n)] threading the variables the body assigns. *)
Fixpoint repeatM {A} (n : nat) (body : A -> M A) (a : A) : M A :=
  match n with
  | O => ret a
  | S n' => let! a' := body a in repeatM n' body a'
  end.

(** [for i in range(lo, lo + n)] *)
Fixpoint for_range (n : nat) (lo : Z) (body : Z -> M unit) : M unit :=
  match n with
  | O => ret tt
  | S n' => body lo >> for_range n' (lo + 1)%Z body
  end.

(** [for x in l] *)
Fixpoint for_each {A} (l : list A) (body : A -> M unit) : M unit :=
  match l with
  | [] => ret tt
  | x :: l' => body x >> for_each l' body
  end.

(** ** [main], from line 85 on *)

(** [fpaths] and [np.stack(features)] of the sorted glob: the loaded
    files are given as pairs of a path and its array. *)
Definition fpaths_of (files : list (string * Feat C)) : list string :=
  files.*1.
Definition features_all_of (files : list (string * Feat C)) : list (Feat C) :=
  files.*2.

(** [features = features_all[start:start+dist,:]] with
    [dist = features_all.shape[0]] *)
Definition features_of (a : args) (files : list (string * Feat C))
  : list (Feat C) :=
  let features_all := features_all_of files in
  let dist := Z.of_nat (length features_all) in
  py_slice features_all (start_idx a) (start_idx a + dist).

(** ['selection/'+str(start)+'.txt'] *)
Definition record_path (a : args) : string :=
  ("selection/" +:+ pretty (start_idx a) +:+ ".txt")%string.

(** Lines 94 to 120: the network, the optimizer, the optional resume, the
    run's scalars, the reset of [./selection/]. *)
Definition setup (a : args) (files : list (string * Feat C)) (w : world)
  : result state :=
  match files with
  | [] => Err ValueError        (* [np.stack] of an empty list *)
  | _ :: _ =>
      let (model, rng1) := DSN C (classes a) (hidden_dim a) (w_rng w) in
      let optimizer := Adam C (lr a) (weight_decay a) in
      let loaded :=
        if decide (resume a = EmptyString)
        then Ok (model, Some 0%Z)                 (* [start_epoch = 0] *)
        else match w_ckpts w !! resume a with
             | Some checkpoint => Ok (checkpoint, None) (* [load_state_dict] *)
             | None => Err (FileNotFoundError (resume a))
             end in
      match loaded with
      | Err e => Err e
      | Ok (model, start_epoch) =>
          Ok (State model optimizer rng1 start_epoch
                    (Fin 0)     (* [baseline=0.] *)
                    (Fin 0)     (* [best_reward=0.0] *)
                    []          (* [best_pi=[]] *)
                    (w_ckpts w)
                    ∅           (* [rm -r ./selection/], [mkdir selection] *)
                    [])
      end
  end.

(** Lines 134 to 136 *)
Definition track_best (reward : num) (pick_idxs : list Z) : M unit :=
  modify (fun s =>
    if fgt reward (best_reward s) then set_best reward pick_idxs s else s).

(** [actions = m.sample()] *)
Definition draw (m : Dist C) : M (list bool) :=
  fun s => let (actions, r) := sample C m (rng s) in
           (set_rng r s, Ok actions).

(** Lines 131 to 139: one episode, on the epoch's [cost] and
    [epis_rewards]. *)
Definition episode (a : args) (seq : list (Feat C)) (probs : list tensor)
    (m : Dist C) (acc : tensor * list num) : M (tensor * list num) :=
  let (cost, epis_rewards) := acc in
  let! actions := draw m in
  emit (EvSample actions) >>
  let log_probs := log_prob C m actions in
  emit (EvReward (number_of_picks a)) >>
  let! (reward, pick_idxs) :=
    lift "compute_reward"
         (compute_reward C seq actions probs (classes a) (number_of_picks a)) in
  track_best reward pick_idxs >>
  let! b := gets baseline in
  let expected_reward := tmulc (tmean log_probs) (reward - b) in
  emit (EvEpisode (tmean log_probs) reward pick_idxs) >>
  ret (tsub cost expected_reward, epis_rewards ++ [reward]).

(** Lines 141 to 143 *)
Definition optimizer_step (cost : tensor) : M unit :=
  modify (fun s =>
    let (o, p) := optim_step C (opt s) (params s) (grad cost) in
    set_net o p s) >>
  emit (EvStep cost).

(** Line 144 *)
Definition update_baseline (epis_rewards : list num) : M unit :=
  modify (fun s =>
    set_baseline (Fin (9 # 10) * baseline s + Fin (1 # 10) * fmean epis_rewards) s).

(** [f.write(s)] on the file opened at [path] *)
Definition file_write (path s : string) : M unit :=
  modify (fun st =>
    set_selection
      (<[path := (default EmptyString (selection st !! path) +:+ s)%string]>
         (selection st)) st).

(** Lines 146 to 149 *)
Definition write_selection (a : args) (fpaths : list string) : M unit :=
  let path := record_path a in
  modify (fun s => set_selection (<[path := EmptyString]> (selection s)) s) >>
  let! best := gets best_pi in
  for_each best (fun idx =>
    match py_index fpaths (start_idx a + idx) with
    | Some id => file_write path (id +:+ newline)%string
    | None => raise IndexError
    end) >>
  emit (EvWrite path).

(** The regularization term that [cost] starts from, line 127 *)
Definition regularizer (a : args) (probs : list tensor) : tensor :=
  tscale (beta a) (tsq (tsubc (tmean probs) (Fin (1 # 2)))).

(** Lines 123 to 149: one epoch *)
Definition epoch_body (a : args) (features : list (Feat C))
    (fpaths : list string) (epoch : Z) : M unit :=
  let seq := features in
  emit EvForward >>
  let! model := gets params in
  let! probs := lift "model" (forward C model seq) in
  let cost := regularizer a probs in
  let! m := lift "Bernoulli" (Bernoulli C probs) in
  let epis_rewards := [] in
  let! (cost, epis_rewards) :=
    repeatM (Z.to_nat (num_episode a)) (episode a seq probs m)
            (cost, epis_rewards) in
  optimizer_step cost >>
  update_baseline epis_rewards >>
  emit (EvPrint (epoch + 1) (max_epoch a) (fmean epis_rewards)) >>
  write_selection a fpaths.

(** Line 122: the epoch loop *)
Definition train (a : args) (features : list (Feat C)) (fpaths : list string)
  : M unit :=
  let! start := gets start_epoch in
  match start with
  | None => raise (UnboundLocalError "start_epoch")
  | Some start_epoch =>
      for_range (Z.to_nat (max_epoch a - start_epoch)) start_epoch
                (epoch_body a features fpaths)
  end.

(** [osp.join(dir, name)] for a relative [name] *)
Definition osp_join (dir name : string) : string :=
  if decide (dir = EmptyString) then name
  else match last (String.list_ascii_of_string dir) with
       | Some "/"%char => (dir +:+ name)%string
       | _ => (dir +:+ "/" +:+ name)%string
       end.

(** Modelled from the spec: [save_checkpoint] of [utils], which is not
    part of the sources; the spec has the core expose a snapshot of the
    policy parameters for saving, stored here under the path given. *)
Definition save_checkpoint (model_state_dict : Params C) (fpath : string)
  : M unit :=
  modify (fun s => set_ckpts (<[fpath := model_state_dict]> (ckpts s)) s).

(** Lines 156 to 158 *)
Definition finish (a : args) : M unit :=
  let! model_state_dict := gets params in
  let model_save_path :=
    osp_join (save_dir a)
             ("model_epoch" +:+ pretty (max_epoch a) +:+ ".pth.tar")%string in
  save_checkpoint model_state_dict model_save_path.

(** [main()]: the state reached, if the setup got that far, and the way
    the run ended. *)
Definition main (a : args) (files : list (string * Feat C)) (w : world)
  : option state * result unit :=
  match setup a files w with
  | Err e => (None, Err e)
  | Ok s0 =>
      let (s, r) :=
        (train a (features_of a files) (fpaths_of files) >> finish a) s0 in
      (Some s, r)
  end.

(** The events that [s'] has and [s], an earlier state of the run, has
    not. *)
Definition events_since (s s' : state) : list event :=
  drop (length (trace s)) (trace s').

(** The events [evs] of a loop of [n] episodes begin, when [n] is not
    zero, with a sample and the call of the reward function on it, and end
    there if that call raises. *)
Definition first_call (a : args) (seq : list (Feat C)) (probs : list tensor)
    (m : Dist C) (g : Rng C) (n : nat) (evs : list event) : Prop :=
  (0 < n)%nat ->
  let actions := (sample C m g).1 in
  exists rest,
    evs = EvSample actions :: EvReward (number_of_picks a) :: rest /\
    (compute_reward C seq actions probs (classes a) (number_of_picks a) = None
     -> rest = []).

(** The fields that only the optimizer step, the baseline update and the
    selection write assign are the same in [s] and [s']. *)
Definition same_model (s s' : state) : Prop :=
  params s' = params s /\ opt s' = opt s /\ baseline s' = baseline s /\
  selection s' = selection s.

(** The pair that only [track_best] assigns. *)
Definition best_of (s : state) : num * list Z := (best_reward s, best_pi s).

End Trainer.

Arguments same_model {C} s s'.
Arguments best_of {C} s.
Arguments params {C} s.
Arguments opt {C} s.
Arguments rng {C} s.
Arguments start_epoch {C} s.
Arguments baseline {C} s.
Arguments best_reward {C} s.
Arguments best_pi {C} s.
Arguments ckpts {C} s.
Arguments selection {C} s.
Arguments trace {C} s.
Arguments events_since {C} s s'.
Arguments World {C} _ _ _.
Arguments w_rng {C} w.
Arguments w_ckpts {C} w.
Arguments w_selection {C} w.

(** ** The loop bodies as pure functions of the episodes scored *)

(** Lines 134 to 136 on the pair of [best_reward] and [best_pi]. *)
Definition keep_best (best : num * list Z) (ep : tensor * num * list Z)
  : num * list Z :=
  if fgt ep.1.2 best.1 then (ep.1.2, ep.2) else best.

Definition best_after (best : num * list Z)
    (eps : list (tensor * num * list Z)) : num * list Z :=
  fold_left keep_best eps best.

(** Lines 137 and 138 on [cost], with the epoch's [baseline]. *)
Definition charge (baseline : num) (cost : tensor)
    (ep : tensor * num * list Z) : tensor :=
  tsub cost (tmulc ep.1.1 (ep.1.2 - baseline)).

Definition cost_after (baseline : num) (cost : tensor)
    (eps : list (tensor * num * list Z)) : tensor :=
  fold_left (charge baseline) eps cost.

(** Line 144 on [baseline]. *)
Definition ema_step (baseline mean : num) : num :=
  (Fin (9 # 10) * baseline + Fin (1 # 10) * mean)%num.

Definition ema_from (baseline : num) (means : list num) : num :=
  fold_left ema_step means baseline.

(** Lines 147 and 148 as a function of [best_pi]: the identifiers
    written, or [None] when an index is out of range. *)
Fixpoint picked_ids (fpaths : list string) (start : Z) (pi : list Z)
  : option (list string) :=
  match pi with
  | [] => Some []
  | idx :: pi' =>
      match py_index fpaths (start + idx) with
      | None => None
      | Some id => option_map (cons id) (picked_ids fpaths start pi')
      end
  end.

(** ** The claims' own formulas *)

(** The epoch cost as the specification words it: the regularization term
    [beta * (mean(probabilities) - 0.5)^2] minus the sum over the episodes
    of [log_probability_mean * (episode_reward - baseline)]. *)
Definition epoch_cost_spec (beta mean_prob baseline : num)
    (episodes : list (num * num)) : num :=
  (beta * ((mean_prob - Fin (1 # 2)) * (mean_prob - Fin (1 # 2)))
   - fsum (map (fun ep => ep.1 * (ep.2 - baseline)) episodes))%num.

(** The exponential moving average as the specification words it:
    [baseline_0 = 0] and
    [baseline_i = 0.9 * baseline_(i-1) + 0.1 * r_i]. *)
Fixpoint ema (rs : list num) (i : nat) : num :=
  match i with
  | O => Fin 0
  | S j => (Fin (9 # 10) * ema rs j + Fin (1 # 10) * nth j rs NaN)%num
  end.

(** The same average in closed form, for finite means [q_1..q_n]: the
    sum of the [0.1 * 0.9^(n-i) * q_i]. *)
Fixpoint qpow (q : Q) (n : nat) : Q :=
  match n with
  | O => 1
  | S n' => q * qpow q n'
  end.

Fixpoint ema_closed (qs : list Q) : Q :=
  match qs with
  | [] => 0
  | q :: qs' => (1 # 10) * qpow (9 # 10) (length qs') * q + ema_closed qs'
  end.

(** The selection record as the specification words it: one identifier
    per line. *)
Fixpoint record_content (ids : list string) : string :=
  match ids with
  | [] => EmptyString
  | id :: ids' => (id +:+ newline +:+ record_content ids')%string
  end.

(** ** Stand-in collaborators, to run the trainer on concrete inputs *)

Module Toy.

(** Every position gets probability 3/4, with a gradient that tells the
    positions apart. *)
Definition toy_forward (p : nat) (seq : list nat) : option (list tensor) :=
  Some (map (fun x => Tensor (Fin (3 # 4)) (fun _ => of_Z (Z.of_nat x))) seq).

(** The mask alternates with the generator state. *)
Definition toy_sample (m : list tensor) (r : nat) : list bool * nat :=
  (map (fun _ => Nat.even r) m, S r).

(** A rational stand-in for the logarithm: -1/4 where the action is 1,
    -3/2 where it is 0. *)
Definition toy_log_prob (m : list tensor) (actions : list bool)
  : list tensor :=
  map (fun b : bool => if b then Tensor (Fin (-1 # 4)) (fun _ => Fin 1)
                       else Tensor (Fin (-3 # 2)) (fun _ => Fin (-2)))
      actions.

Definition reward_fn : Type :=
  list nat -> list bool -> list tensor -> Z -> Z -> option (num * list Z).

Definition toy (reward : reward_fn) : Collab :=
  {| Params := nat; OptState := nat; Rng := nat; Feat := nat;
     Dist := list tensor;
     DSN := fun _ _ r => (O, S r);
     Adam := fun _ _ => O;
     forward := toy_forward;
     Bernoulli := fun probs => Some probs;
     sample := toy_sample;
     log_prob := toy_log_prob;
     compute_reward := reward;
     optim_step := fun o p _ => (S o, S p) |}.

(** The first [k] positions. *)
Definition first_picks (k : Z) : list Z := seqZ 0 k.

(** A reward that is higher when the mask is all ones. *)
Definition mask_reward : reward_fn :=
  fun seq actions probs nc k =>
    Some (if forallb id actions then Fin (1 # 2) else Fin (1 # 4),
          first_picks k).

(** Modelled from the spec: a reward function with the guard that the
    specification gives [compute_reward], [k <= 0] or [k > L] is rejected
    before any computation; [rewards] is not part of the sources. *)
Definition guarded_reward : reward_fn :=
  fun seq actions probs nc k =>
    if decide (k <= 0 \/ Z.of_nat (length seq) < k)%Z
    then None
    else mask_reward seq actions probs nc k.

(** A reward function whose result is not a number. *)
Definition nan_reward : reward_fn :=
  fun seq actions probs nc k => Some (NaN, first_picks k).

(** A reward function that never finds anything to reward. *)
Definition zero_reward : reward_fn :=
  fun seq actions probs nc k => Some (Fin 0, first_picks k).

Definition toy_files : list (string * nat) :=
  [("f/a.npy", 1%nat); ("f/b.npy", 2%nat); ("f/c.npy", 3%nat)]%string.

Definition toy_args (epochs episodes picks : Z) (resume : string) : args :=
  {| hidden_dim := 256; lr := Fin (1 # 100); weight_decay := Fin (1 # 100000);
     max_epoch := epochs; num_episode := episodes; start_idx := 0;
     number_of_picks := picks; classes := 19; beta := Fin (1 # 100);
     save_dir := "log"; resume := resume |}.

Definition toy_world (reward : reward_fn) : world (toy reward) :=
  World (C := toy reward) O (<["ck.pth" := 7%nat]> ∅)
        (<["selection/0.txt" := "old"]> ∅)%string.

(** A state in the middle of a run: one update done, a baseline of 1/10,
    a best pair from an earlier epoch, an older record on disk. *)
Definition toy_state (reward : reward_fn) : state (toy reward) :=
  State (toy reward) 1%nat 1%nat 4%nat (Some 0%Z) (Fin (1 # 10)) (Fin (1 # 4))
        [2%Z] ∅ (<["selection/0.txt" := "old"]> ∅)%string [EvForward].

Definition toy_feats : list nat := [1; 2; 3]%nat.
Definition toy_fpaths : list string := ["f/a.npy"; "f/b.npy"; "f/c.npy"]%string.

(** One epoch from the state above, and a whole run from the start. *)
Definition toy_epoch (reward : reward_fn) (a : args)
  : state (toy reward) * result unit :=
  epoch_body (toy reward) a toy_feats toy_fpaths 0 (toy_state reward).

Definition toy_train (reward : reward_fn) (a : args)
  : state (toy reward) * result unit :=
  train (toy reward) a toy_feats toy_fpaths (toy_state reward).

Definition toy_run (reward : reward_fn) (a : args)
  : option (state (toy reward)) * result unit :=
  main (toy reward) a toy_files (toy_world reward).

Definition toy_final (reward : reward_fn) (a : args) : state (toy reward) :=
  default (toy_state reward) (toy_run reward a).1.

(** The first element of a list that is known not to be empty. *)
Definition first_cost (l : list tensor) : tensor :=
  hd (Tensor NaN (fun _ => NaN)) l.
Definition first_episode (l : list (tensor * num * list Z))
  : tensor * num * list Z :=
  hd (Tensor NaN (fun _ => NaN), NaN, []) l.

End Toy.


(** ** Further readings of the write loop, the trace and the state *)

(** The identifiers that lines 147 and 148 write before the first index
    out of range; all of them if there is none. *)
Fixpoint written_ids (fpaths : list string) (start : Z) (pi : list Z)
  : list string :=
  match pi with
  | [] => []
  | idx :: pi' =>
      match py_index fpaths (start + idx) with
      | None => []
      | Some id => id :: written_ids fpaths start pi'
      end
  end.

(** The epoch number and the total of each epoch line printed so far,
    oldest first. *)
Fixpoint printed_epochs (tr : list event) : list (Z * Z) :=
  match tr with
  | [] => []
  | EvPrint epoch total _ :: tr' => (epoch, total) :: printed_epochs tr'
  | _ :: tr' => printed_epochs tr'
  end.

(** The epoch lines of [k] consecutive passes of the loop of line 122
    that begin at [lo]: the numbers [lo+1 .. lo+k], each with the total
    [total]. *)
Fixpoint epoch_lines (total lo : Z) (k : nat) : list (Z * Z) :=
  match k with
  | O => []
  | S k' => (lo + 1, total)%Z :: epoch_lines total (lo + 1) k'
  end.

(** ['model_epoch' + str(args.max_epoch) + '.pth.tar'] under [save_dir],
    line 157 *)
Definition model_save_path (a : args) : string :=
  osp_join (save_dir a)
           ("model_epoch" +:+ pretty (max_epoch a) +:+ ".pth.tar")%string.

Section Frames.

Context (C : Collab).

(** Every run of [m] relates the state it starts from to the state it
    ends in by [R], whether it returns or raises. *)
Definition preserves {A} (R : state C -> state C -> Prop) (m : M C A) : Prop :=
  forall s s' r, m s = (s', r) -> R s s'.

(** The files that a stretch of the run leaves alone: the checkpoints and
    every file of [selection/] but the one at [path]; [start_epoch] is
    not assigned either. *)
Definition same_files (path : string) (s s' : state C) : Prop :=
  ckpts s' = ckpts s /\ start_epoch s' = start_epoch s /\
  forall k, k <> path -> selection s' !! k = selection s !! k.

End Frames.

Arguments preserves {C A} R m.
Arguments same_files {C} path s s'.

(** One epoch of two episodes over the stand-in features, from the start
    offset [start]. *)
Definition toy_args_at (start : Z) : args :=
  {| hidden_dim := 256; lr := Fin (1 # 100); weight_decay := Fin (1 # 100000);
     max_epoch := 1; num_episode := 2; start_idx := start;
     number_of_picks := 2; classes := 19; beta := Fin (1 # 100);
     save_dir := "log"; resume := EmptyString |}.

(** * Properties *)

(** ** The arithmetic and the lists on examples *)

Example fadd_inf : (PInf + NInf)%num = NaN.
Proof. reflexivity. Qed.
Example fmul_zero_inf : (Fin 0 * PInf)%num = NaN.
Proof. reflexivity. Qed.
Example fmean_empty : fmean [] = NaN.
Proof. reflexivity. Qed.
Example fgt_nan : fgt NaN (Fin 0) = false /\ fgt (Fin 0) NaN = false.
Proof. split; reflexivity. Qed.
Example fmean_two : (fmean [Fin (1#2); Fin (1#4)] ≈ Fin (3#8))%num.
Proof. reflexivity. Qed.
Example py_index_last : py_index ["a"; "b"; "c"]%string (-1) = Some "c"%string.
Proof. reflexivity. Qed.
Example py_index_out : py_index ["a"; "b"; "c"]%string 3 = None.
Proof. reflexivity. Qed.
Example py_slice_mid : py_slice [1; 2; 3; 4]%nat 1 5 = [2; 3; 4]%nat.
Proof. reflexivity. Qed.
Example py_slice_neg : py_slice [1; 2; 3; 4]%nat (-1) 3 = [].
Proof. reflexivity. Qed.

(** ** Arithmetic of the extended rationals *)

Section NumFacts.

Local Open Scope num_scope.

Global Instance feq_equiv : Equivalence feq.
Proof.
  split.
  - intros [q| | |]; simpl; auto. reflexivity.
  - intros [a| | |] [b| | |]; simpl; auto. intros H; symmetry; exact H.
  - intros [a| | |] [b| | |] [c| | |]; simpl; auto; try contradiction.
    intros H1 H2; rewrite H1; exact H2.
Qed.

Lemma feq_of_eq (x y : num) : x = y -> x ≈ y.
Proof. intros ->; reflexivity. Qed.

Global Instance fneg_proper : Proper (feq ==> feq) fneg.
Proof.
  intros [a| | |] [b| | |]; simpl; auto. intros H; rewrite H; reflexivity.
Qed.

Global Instance fadd_proper : Proper (feq ==> feq ==> feq) fadd.
Proof.
  intros [a| | |] [b| | |] Hab [c| | |] [d| | |] Hcd; simpl in *;
    auto; try contradiction.
  rewrite Hab, Hcd; reflexivity.
Qed.

Global Instance fsub_proper : Proper (feq ==> feq ==> feq) fsub.
Proof. intros a b Hab c d Hcd; unfold fsub; rewrite Hab, Hcd; reflexivity. Qed.

Lemma fadd_assoc (a b c : num) : (a + b) + c ≈ a + (b + c).
Proof. destruct a, b, c; simpl; auto. ring. Qed.

Lemma fadd_0_l (a : num) : Fin 0 + a ≈ a.
Proof. destruct a; simpl; auto. ring. Qed.

Lemma fsub_fadd (a b c : num) : (a - b) - c ≈ a - (b + c).
Proof. destruct a, b, c; simpl; auto. ring. Qed.

Lemma fold_fadd_shift (l : list num) (x : num) :
  fold_left fadd l x ≈ x + fsum l.
Proof.
  unfold fsum. revert x.
  induction l as [|y l IH]; intros x; cbn [fold_left].
  - destruct x; simpl; auto. ring.
  - rewrite IH, (IH (Fin 0 + y)), fadd_0_l, fadd_assoc. reflexivity.
Qed.

Lemma fsum_cons (x : num) (l : list num) : fsum (x :: l) ≈ x + fsum l.
Proof.
  unfold fsum at 1; cbn [fold_left].
  rewrite fold_fadd_shift, fadd_0_l. reflexivity.
Qed.

(** Subtracting the terms one after the other is subtracting their sum. *)
Lemma fold_fsub_sum (l : list num) (x : num) :
  fold_left fsub l x ≈ x - fsum l.
Proof.
  revert x. induction l as [|y l IH]; intros x; cbn [fold_left].
  - destruct x; simpl; auto. ring.
  - rewrite IH, fsum_cons, fsub_fadd. reflexivity.
Qed.

(** *** A value that is not finite stays so *)

Lemma inf_of_sign_not_finite (q : Q) (pos : bool) :
  is_finite (inf_of_sign q pos) = false.
Proof. unfold inf_of_sign. destruct (q ?= 0)%Q, pos; reflexivity. Qed.

Lemma fneg_finite (a : num) : is_finite (fneg a) = is_finite a.
Proof. destruct a; reflexivity. Qed.

Lemma fadd_finite (a b : num) :
  is_finite (a + b) = true -> is_finite a = true /\ is_finite b = true.
Proof. destruct a, b; simpl; auto. Qed.

Lemma fsub_finite (a b : num) :
  is_finite (a - b) = true -> is_finite a = true /\ is_finite b = true.
Proof.
  unfold fsub. intros H. apply fadd_finite in H.
  rewrite fneg_finite in H. exact H.
Qed.

Lemma fmul_finite (a b : num) :
  is_finite (a * b) = true -> is_finite a = true /\ is_finite b = true.
Proof.
  destruct a, b; simpl; auto; rewrite inf_of_sign_not_finite; discriminate.
Qed.

Lemma fdiv_nat_finite (a : num) (n : nat) :
  is_finite (fdiv_nat a n) = true -> is_finite a = true.
Proof. destruct a, n; simpl; auto. Qed.

Lemma fold_fadd_finite (l : list num) (x : num) :
  is_finite (fold_left fadd l x) = true ->
  is_finite x = true /\ Forall (fun y => is_finite y = true) l.
Proof.
  revert x. induction l as [|y l IH]; intros x H; simpl in *.
  - auto.
  - apply IH in H as [H1 H2]. apply fadd_finite in H1 as [Hx Hy]. auto.
Qed.

Lemma fmean_finite (l : list num) :
  is_finite (fmean l) = true -> Forall (fun y => is_finite y = true) l.
Proof.
  unfold fmean, fsum. intros H.
  apply fdiv_nat_finite, fold_fadd_finite in H. tauto.
Qed.

Lemma ema_step_finite (b m : num) :
  is_finite (ema_step b m) = true ->
  is_finite b = true /\ is_finite m = true.
Proof.
  unfold ema_step. intros H. apply fadd_finite in H as [H1 H2].
  apply fmul_finite in H1, H2. tauto.
Qed.

(** *** The order *)

Lemma fgt_irrefl (a : num) : fgt a a = false.
Proof.
  destruct a; simpl; auto.
  apply negb_false_iff, Qle_bool_iff, Qle_refl.
Qed.

Lemma fgt_feq_false (a b : num) : a ≈ b -> fgt a b = false.
Proof.
  destruct a, b; simpl; auto; try contradiction.
  intros H. apply negb_false_iff, Qle_bool_iff. rewrite H. apply Qle_refl.
Qed.

Lemma fgt_trans (a b c : num) :
  fgt a b = true -> fgt b c = true -> fgt a c = true.
Proof.
  destruct a as [a| | |], b as [b| | |], c as [c| | |]; simpl; auto;
    try discriminate.
  rewrite !negb_true_iff, <- !not_true_iff_false, !Qle_bool_iff.
  intros H1 H2. apply Qnot_le_lt in H1, H2. apply Qlt_not_le.
  eapply Qlt_trans; eauto.
Qed.

Lemma fle_not_fgt (a b : num) : fle a b = true -> fgt a b = false.
Proof.
  destruct a, b; simpl; auto; try discriminate.
  apply negb_true_iff.
Qed.

Lemma fgt_fle (a b : num) : fgt b a = true -> fle a b = true.
Proof.
  destruct a as [a| | |], b as [b| | |]; simpl; auto; try discriminate.
  intros H. apply negb_true_iff, not_true_iff_false in H.
  rewrite Qle_bool_iff in H.
  rewrite negb_involutive. apply Qle_bool_iff, Qlt_le_weak, Qnot_le_lt, H.
Qed.

End NumFacts.

(** ** Strings and traces *)

Lemma append_assoc (a b c : string) : ((a +:+ b) +:+ c = a +:+ b +:+ c)%string.
Proof.
  induction a as [|x a IH]; [reflexivity|].
  change (String x ((a +:+ b) +:+ c) = String x (a +:+ b +:+ c))%string.
  f_equal; exact IH.
Qed.

Lemma append_nil_r (a : string) : (a +:+ EmptyString = a)%string.
Proof.
  induction a as [|x a IH]; [reflexivity|].
  change (String x (a +:+ EmptyString) = String x a)%string.
  f_equal; exact IH.
Qed.

Lemma scored_app (t u : list event) : scored (t ++ u) = scored t ++ scored u.
Proof.
  induction t as [|e t IH]; simpl; [reflexivity|].
  destruct e; simpl; rewrite IH; reflexivity.
Qed.

Lemma step_costs_app (t u : list event) :
  step_costs (t ++ u) = step_costs t ++ step_costs u.
Proof.
  induction t as [|e t IH]; simpl; [reflexivity|].
  destruct e; simpl; rewrite IH; reflexivity.
Qed.

Lemma printed_means_app (t u : list event) :
  printed_means (t ++ u) = printed_means t ++ printed_means u.
Proof.
  induction t as [|e t IH]; simpl; [reflexivity|].
  destruct e; simpl; rewrite IH; reflexivity.
Qed.

Lemma episode_rewards_scored (t : list event) :
  episode_rewards t = map (fun ep => ep.1.2) (scored t).
Proof.
  induction t as [|e t IH]; simpl; [reflexivity|].
  destruct e; simpl; rewrite IH; reflexivity.
Qed.

Lemma episode_events_quiet (t : list event) :
  forallb is_episode_event t = true ->
  step_costs t = [] /\ printed_means t = [] /\
  List.filter is_write t = [] /\ List.filter is_forward t = [].
Proof.
  induction t as [|e t IH]; simpl; [auto|].
  intros H. apply andb_true_iff in H as [He Ht].
  destruct e; try discriminate; simpl; auto.
Qed.

Lemma episode_rewards_app (t u : list event) :
  episode_rewards (t ++ u) = episode_rewards t ++ episode_rewards u.
Proof.
  induction t as [|e t IH]; simpl; [reflexivity|].
  destruct e; simpl; rewrite IH; reflexivity.
Qed.

Lemma events_since_app {C : Collab} (s s' : state C) (evs : list event) :
  trace s' = trace s ++ evs -> events_since s s' = evs.
Proof. unfold events_since. intros ->. apply drop_app_length. Qed.

(** ** The folds over the episodes *)

Lemma best_after_app (best : num * list Z) (t u : list (tensor * num * list Z)) :
  best_after best (t ++ u) = best_after (best_after best t) u.
Proof. apply fold_left_app. Qed.

Lemma cost_after_app (b : num) (cost : tensor) (t u : list (tensor * num * list Z)) :
  cost_after b cost (t ++ u) = cost_after b (cost_after b cost t) u.
Proof. apply fold_left_app. Qed.

Lemma ema_from_app (b : num) (t u : list num) :
  ema_from b (t ++ u) = ema_from (ema_from b t) u.
Proof. apply fold_left_app. Qed.

(** The best pair either stays or is the pair of an episode with a
    strictly higher reward. *)
Lemma best_after_cases (best : num * list Z) (eps : list (tensor * num * list Z)) :
  best_after best eps = best \/
  (fgt (best_after best eps).1 best.1 = true /\
   exists lp, In (lp, (best_after best eps).1, (best_after best eps).2) eps).
Proof.
  revert best. induction eps as [|ep eps IH]; intros best.
  - left; reflexivity.
  - change (best_after best (ep :: eps))
      with (best_after (keep_best best ep) eps).
    destruct (IH (keep_best best ep)) as [Heq | [H1 [lp' H2]]].
    + rewrite Heq. unfold keep_best.
      destruct (fgt ep.1.2 best.1) eqn:Hgt; [right | left; reflexivity].
      simpl. split; [exact Hgt|].
      exists ep.1.1. left. destruct ep as [[? ?] ?]; reflexivity.
    + right. unfold keep_best in *.
      destruct (fgt ep.1.2 best.1) eqn:Hgt; simpl in H1;
        (split; [| exists lp'; right; exact H2]);
        [eapply fgt_trans; eauto | exact H1].
Qed.

(** Rewards that do not exceed the best one leave the pair alone. *)
Lemma best_after_keeps (best : num * list Z) (eps : list (tensor * num * list Z)) :
  Forall (fun ep => fgt ep.1.2 best.1 = false) eps ->
  best_after best eps = best.
Proof.
  induction eps as [|ep eps IH]; intros H; [reflexivity|].
  inversion H as [|? ? H1 H2]; subst.
  change (best_after best (ep :: eps))
    with (best_after (keep_best best ep) eps).
  unfold keep_best. rewrite H1. auto.
Qed.

(** Rewards that are at most zero leave the initial pair alone. *)
Lemma best_after_nothing_to_reward (tr : list event) :
  Forall (fun x => fle x (Fin 0) = true) (episode_rewards tr) ->
  best_after (Fin 0, []) (scored tr) = (Fin 0, []).
Proof.
  intros H. apply best_after_keeps.
  induction tr as [|e tr IH]; [constructor|].
  destruct e; simpl in *; auto.
  inversion H; subst. constructor; [apply fle_not_fgt; assumption | auto].
Qed.

(** The value and the gradient of the accumulated cost. *)
Lemma cost_after_val (b : num) (cost : tensor) (eps : list (tensor * num * list Z)) :
  (val (cost_after b cost eps)
   ≈ val cost - fsum (map (fun ep => val ep.1.1 * (ep.1.2 - b)) eps))%num.
Proof.
  rewrite <- fold_fsub_sum. apply feq_of_eq.
  revert cost. induction eps as [|ep eps IH]; intros cost; [reflexivity|].
  unfold cost_after in *; simpl. rewrite IH. reflexivity.
Qed.

Lemma cost_after_grad (b : num) (cost : tensor)
    (eps : list (tensor * num * list Z)) (i : nat) :
  (grad (cost_after b cost eps) i
   ≈ grad cost i - fsum (map (fun ep => grad ep.1.1 i * (ep.1.2 - b)) eps))%num.
Proof.
  rewrite <- fold_fsub_sum. apply feq_of_eq.
  revert cost. induction eps as [|ep eps IH]; intros cost; [reflexivity|].
  unfold cost_after in *; simpl. rewrite IH. reflexivity.
Qed.

(** Once a term is not finite, neither is the cost. *)
Lemma cost_after_finite (b : num) (cost : tensor) (eps : list (tensor * num * list Z)) :
  is_finite (val (cost_after b cost eps)) = true ->
  is_finite (val cost) = true /\
  Forall (fun ep => is_finite (val ep.1.1) = true /\ is_finite ep.1.2 = true) eps.
Proof.
  revert cost. induction eps as [|ep eps IH]; intros cost H.
  - auto.
  - unfold cost_after in *; simpl in H. apply IH in H as [H1 H2].
    unfold charge in H1; simpl in H1.
    apply fsub_finite in H1 as [Hc He].
    apply fmul_finite in He as [Hl Hr]. apply fsub_finite in Hr as [Hr _].
    auto.
Qed.

(** ** What the loop bodies do to the state *)

Section Runs.

Context (C : Collab).

Implicit Types (s : state C) (a : args).

(** One episode: the sample, the call of the reward function and, if it
    returns, the bookkeeping of lines 134 to 139. *)
Lemma episode_run a seq probs m cost rw s :
  let sd := sample C m (rng s) in
  let lp := tmean (log_prob C m sd.1) in
  let pre := [EvSample sd.1; EvReward (number_of_picks a)] in
  exists s',
    same_model s s' /\
    match compute_reward C seq sd.1 probs (classes a) (number_of_picks a) with
    | None =>
        episode C a seq probs m (cost, rw) s = (s', Err (Raised "compute_reward"))
        /\ trace s' = trace s ++ pre /\ best_of s' = best_of s
    | Some (reward, pi) =>
        episode C a seq probs m (cost, rw) s
        = (s', Ok (charge (baseline s) cost (lp, reward, pi), rw ++ [reward]))
        /\ trace s' = trace s ++ pre ++ [EvEpisode lp reward pi]
        /\ best_of s' = keep_best (best_of s) (lp, reward, pi)
    end.
Proof.
  intros sd lp pre. subst sd lp pre.
  unfold episode, bind, draw, emit, modify, lift, track_best, gets, ret,
    same_model, best_of, keep_best, charge.
  destruct (sample C m (rng s)) as [actions r'] eqn:Hs; simpl.
  destruct (compute_reward C seq actions probs (classes a) (number_of_picks a))
    as [[reward pi]|]; simpl.
  - destruct (fgt reward (best_reward s)) eqn:Hgt; simpl;
      eexists; (split; [|split; [reflexivity|]]); simpl;
      rewrite <- ?app_assoc; simpl; auto 10.
  - eexists; (split; [|split; [reflexivity|]]); simpl;
      rewrite <- ?app_assoc; simpl; auto 10.
Qed.

(** The episode loop of one epoch. *)
Lemma episodes_run a seq probs m n : forall cost rw s s' r,
  repeatM C n (episode C a seq probs m) (cost, rw) s = (s', r) ->
  exists evs,
    trace s' = trace s ++ evs /\
    forallb is_episode_event evs = true /\
    same_model s s' /\
    best_of s' = best_after (best_of s) (scored evs) /\
    first_call C a seq probs m (rng s) n evs /\
    match r with
    | Ok (cost', rw') =>
        cost' = cost_after (baseline s) cost (scored evs) /\
        rw' = rw ++ map (fun ep => ep.1.2) (scored evs) /\
        length (scored evs) = n
    | Err e =>
        e = Raised "compute_reward" /\ (length (scored evs) < n)%nat
    end.
Proof.
  induction n as [|n IH]; intros cost rw s s' r H.
  - inversion H; subst. exists []. rewrite !app_nil_r.
    unfold same_model, first_call. repeat split; auto. lia.
  - cbn [repeatM] in H. unfold bind in H.
    destruct (episode_run a seq probs m cost rw s) as [s1 [Hm Hep]].
    destruct (compute_reward C seq (sample C m (rng s)).1 probs (classes a)
                (number_of_picks a)) as [[reward pi]|] eqn:Hcr.
    + destruct Hep as [Hep [Htr Hbest]]. rewrite Hep in H.
      apply IH in H as [evs [Htr' [Hq [Hm' [Hbest' [_ Hr]]]]]].
      destruct Hm as [Hp [Ho [Hb Hsel]]], Hm' as [Hp' [Ho' [Hb' Hsel']]].
      eexists. split; [rewrite Htr', Htr, <- !app_assoc; reflexivity|].
      split; [exact Hq|].
      split; [unfold same_model; repeat split; congruence|].
      split; [simpl; rewrite Hbest', Hbest; reflexivity|].
      split; [intros _; eexists; split; [reflexivity | cbv zeta; congruence]|].
      destruct r as [[cost' rw']|e]; simpl.
      * destruct Hr as [-> [-> Hlen]]. rewrite Hb, <- app_assoc.
        repeat split; simpl; auto.
      * destruct Hr as [-> Hlen]. split; [reflexivity | lia].
    + destruct Hep as [Hep [Htr Hbest]]. rewrite Hep in H.
      inversion H; subst.
      eexists. split; [exact Htr|].
      split; [reflexivity|]. split; [exact Hm|].
      split; [exact Hbest|].
      split; [intros _; eexists; split; reflexivity|].
      split; [reflexivity | simpl; lia].
Qed.

(** The loop of lines 147 and 148 on a file that holds [c]. *)
Lemma write_lines_run a fpaths pi : forall s s' r c,
  selection s !! record_path a = Some c ->
  for_each C pi (fun idx =>
    match py_index fpaths (start_idx a + idx) with
    | Some id => file_write C (record_path a) (id +:+ newline)%string
    | None => raise C IndexError
    end) s = (s', r) ->
  (params s' = params s /\ opt s' = opt s /\ baseline s' = baseline s) /\
  best_of s' = best_of s /\ trace s' = trace s /\
  match picked_ids fpaths (start_idx a) pi with
  | Some ids =>
      r = Ok tt /\
      selection s' !! record_path a = Some (c +:+ record_content ids)%string
  | None => r = Err IndexError
  end.
Proof.
  induction pi as [|idx pi IH]; intros s s' r c Hc H.
  - inversion H; subst. simpl. rewrite append_nil_r.
    unfold same_model. auto 10.
  - cbn [for_each picked_ids] in *. unfold bind in H.
    destruct (py_index fpaths (start_idx a + idx)) as [id|].
    + unfold file_write in H. unfold modify in H at 1.
      cbn [selection set_selection] in H. rewrite Hc in H. cbn [default] in H.
      eapply IH in H; [|simpl; apply lookup_insert_eq].
      destruct H as [[Hp [Ho Hb]] [Hbest [Htr Hres]]].
      split; [exact (conj Hp (conj Ho Hb))|].
      split; [exact Hbest|]. split; [exact Htr|].
      destruct (picked_ids fpaths (start_idx a) pi) as [ids|]; simpl.
      * destruct Hres as [-> Hsel]. split; [reflexivity|].
        rewrite Hsel. f_equal.
        change (record_content (id :: ids))
          with (id +:+ newline +:+ record_content ids)%string.
        rewrite !append_assoc. reflexivity.
      * exact Hres.
    + inversion H; subst. unfold same_model. auto 10.
Qed.

(** Lines 146 to 149. *)
Lemma write_selection_run a fpaths s s' r :
  write_selection C a fpaths s = (s', r) ->
  (params s' = params s /\ opt s' = opt s /\ baseline s' = baseline s) /\
  best_of s' = best_of s /\
  match picked_ids fpaths (start_idx a) (best_pi s) with
  | Some ids =>
      r = Ok tt /\ trace s' = trace s ++ [EvWrite (record_path a)] /\
      selection s' !! record_path a = Some (record_content ids)
  | None => r = Err IndexError /\ trace s' = trace s
  end.
Proof.
  unfold write_selection. unfold bind at 1 2. unfold modify at 1, gets.
  cbn [best_pi set_selection]. unfold bind.
  match goal with
  | |- context [for_each C ?pi ?body ?s0] =>
      destruct (for_each C pi body s0) as [s1 r1] eqn:Hfor
  end.
  apply (write_lines_run a fpaths _ _ _ _ EmptyString) in Hfor;
    [|simpl; apply lookup_insert_eq].
  destruct Hfor as [Hm [Hbest [Htr Hres]]]. simpl in Hm, Hbest, Htr.
  destruct (picked_ids fpaths (start_idx a) (best_pi s)) as [ids|].
  - destruct Hres as [-> Hsel]. unfold emit, modify.
    intros H; inversion H; subst; clear H. simpl.
    rewrite Htr. auto 10.
  - subst r1. intros H; inversion H; subst; clear H. auto 10.
Qed.

(** One epoch, lines 123 to 149: where it can end and what it leaves. *)
Lemma epoch_run a feats fpaths e s s' r :
  epoch_body C a feats fpaths e s = (s', r) ->
  exists evs,
    trace s' = trace s ++ EvForward :: evs /\
    match forward C (params s) feats with
    | None =>
        r = Err (Raised "model") /\ evs = [] /\
        same_model s s' /\ best_of s' = best_of s
    | Some probs =>
        match Bernoulli C probs with
        | None =>
            r = Err (Raised "Bernoulli") /\ evs = [] /\
            same_model s s' /\ best_of s' = best_of s
        | Some m =>
            exists pre,
              forallb is_episode_event pre = true /\
              best_of s' = best_after (best_of s) (scored pre) /\
              first_call C a feats probs m (rng s)
                         (Z.to_nat (num_episode a)) pre /\
              ((r = Err (Raised "compute_reward") /\ evs = pre /\
                same_model s s' /\
                (length (scored pre) < Z.to_nat (num_episode a))%nat)
               \/
               (length (scored pre) = Z.to_nat (num_episode a) /\
                let cost :=
                  cost_after (baseline s) (regularizer a probs) (scored pre) in
                let mean := fmean (map (fun ep => ep.1.2) (scored pre)) in
                let tail := [EvStep cost; EvPrint (e + 1) (max_epoch a) mean] in
                (opt s', params s') = optim_step C (opt s) (params s) (grad cost)
                /\ baseline s' = ema_step (baseline s) mean /\
                match picked_ids fpaths (start_idx a) (best_pi s') with
                | Some ids =>
                    r = Ok tt /\
                    evs = pre ++ tail ++ [EvWrite (record_path a)] /\
                    selection s' !! record_path a = Some (record_content ids)
                | None => r = Err IndexError /\ evs = pre ++ tail
                end))
        end
    end.
Proof.
  unfold epoch_body. unfold bind at 1 2 3. unfold emit at 1, modify at 1, gets.
  cbn [params set_trace]. unfold lift at 1.
  destruct (forward C (params s) feats) as [probs|].
  2:{ intros H; inversion H; subst. exists []. unfold same_model. auto 10. }
  unfold bind at 1. unfold lift at 1.
  destruct (Bernoulli C probs) as [m|].
  2:{ intros H; inversion H; subst. exists []. unfold same_model. auto 10. }
  unfold bind at 1.
  match goal with
  | |- context [repeatM C ?n ?body ?acc ?s0] =>
      destruct (repeatM C n body acc s0) as [s1 r1] eqn:Hrep
  end.
  apply episodes_run in Hrep as [pre [Htr [Hq [Hm [Hbest [Hfirst Hr]]]]]].
  unfold same_model, best_of in Hm, Hbest.
  cbn [trace baseline params opt best_reward best_pi rng selection set_trace]
    in Htr, Hm, Hbest, Hfirst, Hr.
  destruct Hm as [Hp [Ho [Hb Hsel1]]].
  destruct r1 as [[cost rw]|err].
  2:{ destruct Hr as [-> Hlen]. intros H; inversion H; subst.
      exists pre. split; [rewrite Htr, <- app_assoc; reflexivity|].
      exists pre. split; [exact Hq|]. split; [exact Hbest|].
      split; [exact Hfirst|]. left. unfold same_model. auto 10. }
  destruct Hr as [-> [-> Hlen]]. simpl.
  unfold optimizer_step, update_baseline.
  unfold bind at 1 2 3 4. unfold modify at 1.
  destruct (optim_step C (opt s1) (params s1) _) as [o' p'] eqn:Hopt.
  unfold emit at 1, modify at 1. unfold modify at 1. unfold emit at 1, modify at 1.
  match goal with
  | |- write_selection C a fpaths ?s0 = _ -> _ => set (s2 := s0)
  end.
  intros H. apply write_selection_run in H as [[Hp2 [Ho2 Hb2]] [Hbest2 Hres]].
  subst s2. unfold best_of in Hbest2.
  cbn [params opt baseline best_reward best_pi trace selection
       set_trace set_baseline set_net] in Hp2, Ho2, Hb2, Hbest2, Hres.
  assert (Hpi : best_pi s' = best_pi s1) by (inversion Hbest2; auto).
  rewrite Hb, Hp, Ho in *.
  exists (pre ++ [EvStep (cost_after (baseline s) (regularizer a probs) (scored pre));
                  EvPrint (e + 1) (max_epoch a)
                    (fmean (map (fun ep => ep.1.2) (scored pre)))]
              ++ match picked_ids fpaths (start_idx a) (best_pi s1) with
                 | Some _ => [EvWrite (record_path a)]
                 | None => []
                 end).
  split.
  { destruct (picked_ids fpaths (start_idx a) (best_pi s1)) as [ids|].
    - destruct Hres as [_ [Htr2 _]]. rewrite Htr2, Htr, <- !app_assoc.
      reflexivity.
    - destruct Hres as [_ Htr2]. rewrite Htr2, Htr, <- !app_assoc.
      reflexivity. }
  exists pre. split; [exact Hq|].
  split; [unfold best_of; rewrite Hbest2; exact Hbest|].
  split; [exact Hfirst|].
  right. split; [exact Hlen|]. cbv zeta.
  rewrite Ho2, Hp2, Hb2, Hpi.
  split; [rewrite Hopt; reflexivity|].
  split; [reflexivity|].
  destruct (picked_ids fpaths (start_idx a) (best_pi s1)) as [ids|].
  - destruct Hres as [-> [_ Hsel]]. auto.
  - destruct Hres as [-> _]. rewrite app_nil_r. auto.
Qed.


(** One epoch seen through its trace. *)
Lemma epoch_summary a feats fpaths e s s' r :
  epoch_body C a feats fpaths e s = (s', r) ->
  exists evs,
    trace s' = trace s ++ evs /\
    best_of s' = best_after (best_of s) (scored evs) /\
    baseline s' = ema_from (baseline s) (printed_means evs) /\
    length (step_costs evs) = length (printed_means evs) /\
    (length (printed_means evs) <= 1)%nat /\
    (r = Ok tt -> length (printed_means evs) = 1%nat).
Proof.
  intros H. apply epoch_run in H as [evs [Htr H]].
  exists (EvForward :: evs). split; [exact Htr|]. cbn [scored printed_means step_costs].
  destruct (forward C (params s) feats) as [probs|].
  2:{ destruct H as [-> [-> [[_ [_ [Hb _]]] Hbest]]]. simpl.
      repeat split; auto; discriminate. }
  destruct (Bernoulli C probs) as [m|].
  2:{ destruct H as [-> [-> [[_ [_ [Hb _]]] Hbest]]]. simpl.
      repeat split; auto; discriminate. }
  destruct H as [pre [Hq [Hbest [_ H]]]].
  destruct (episode_events_quiet pre Hq) as [Hs [Hpm _]].
  destruct H as [[-> [-> [[_ [_ [Hb _]]] _]]] | [_ H]].
  { rewrite Hs, Hpm. simpl. repeat split; auto; discriminate. }
  cbv zeta in H. destruct H as [_ [Hb H]].
  destruct (picked_ids fpaths (start_idx a) (best_pi s')) as [ids|].
  - destruct H as [-> [-> _]].
    rewrite !scored_app, !printed_means_app, !step_costs_app, Hs, Hpm.
    simpl. rewrite app_nil_r. repeat split; auto.
  - destruct H as [-> ->].
    rewrite !scored_app, !printed_means_app, !step_costs_app, Hs, Hpm.
    simpl. rewrite app_nil_r. repeat split; auto; discriminate.
Qed.

(** The epoch loop, line 122. *)
Lemma epochs_run a feats fpaths n : forall lo s s' r,
  for_range C n lo (epoch_body C a feats fpaths) s = (s', r) ->
  exists evs,
    trace s' = trace s ++ evs /\
    best_of s' = best_after (best_of s) (scored evs) /\
    baseline s' = ema_from (baseline s) (printed_means evs) /\
    length (step_costs evs) = length (printed_means evs) /\
    (length (printed_means evs) <= n)%nat /\
    (r = Ok tt -> length (printed_means evs) = n).
Proof.
  induction n as [|n IH]; intros lo s s' r H.
  - inversion H; subst. exists []. rewrite app_nil_r. simpl. auto 10.
  - cbn [for_range] in H. unfold bind in H.
    destruct (epoch_body C a feats fpaths lo s) as [s1 r1] eqn:Hep.
    apply epoch_summary in Hep
      as [evs1 [Htr1 [Hbest1 [Hb1 [Hlen1 [Hle1 Hok1]]]]]].
    destruct r1 as [[]|err].
    + apply IH in H as [evs2 [Htr2 [Hbest2 [Hb2 [Hlen2 [Hle2 Hok2]]]]]].
      exists (evs1 ++ evs2).
      rewrite scored_app, printed_means_app, step_costs_app, !length_app,
        best_after_app, ema_from_app, <- Hbest1, <- Hb1.
      split; [rewrite Htr2, Htr1, app_assoc; reflexivity|].
      specialize (Hok1 eq_refl).
      repeat split; auto; try lia.
      intros Hr. specialize (Hok2 Hr). lia.
    + inversion H; subst. exists evs1.
      repeat split; auto; try lia. discriminate.
Qed.

(** The state that the setup hands to the epoch loop. *)
Lemma setup_run a files w s0 :
  setup C a files w = Ok s0 ->
  files <> [] /\
  opt s0 = Adam C (lr a) (weight_decay a) /\
  rng s0 = (DSN C (classes a) (hidden_dim a) (w_rng w)).2 /\
  baseline s0 = Fin 0 /\ best_of s0 = (Fin 0, []) /\
  ckpts s0 = w_ckpts w /\ selection s0 = ∅ /\ trace s0 = [] /\
  ((resume a = EmptyString /\ start_epoch s0 = Some 0%Z /\
    params s0 = (DSN C (classes a) (hidden_dim a) (w_rng w)).1)
   \/
   (resume a <> EmptyString /\ start_epoch s0 = None /\
    w_ckpts w !! resume a = Some (params s0))).
Proof.
  unfold setup. destruct files as [|f files]; [discriminate|].
  destruct (DSN C (classes a) (hidden_dim a) (w_rng w)) as [model rng1].
  destruct (decide (resume a = EmptyString)) as [Hres|Hres].
  - intros H; inversion H; subst; clear H. simpl.
    unfold best_of; simpl. repeat split; auto; try discriminate.
  - destruct (w_ckpts w !! resume a) as [ck|] eqn:Hck; [|discriminate].
    intros H; inversion H; subst; clear H. simpl.
    unfold best_of; simpl. repeat split; auto; try discriminate.
Qed.

(** The checkpoint save touches the checkpoint files only. *)
Lemma finish_run a s :
  exists s', finish C a s = (s', Ok tt) /\
    same_model s s' /\ best_of s' = best_of s /\
    trace s' = trace s /\ selection s' = selection s.
Proof.
  unfold finish, save_checkpoint, bind, gets, modify. eexists.
  split; [reflexivity|]. unfold same_model, best_of. simpl. auto 10.
Qed.

(** The epoch loop seen from its start. *)
Lemma train_run a feats fpaths s s' r :
  train C a feats fpaths s = (s', r) ->
  match start_epoch s with
  | None => s' = s /\ r = Err (UnboundLocalError "start_epoch")
  | Some e0 =>
      for_range C (Z.to_nat (max_epoch a - e0)) e0
                (epoch_body C a feats fpaths) s = (s', r)
  end.
Proof.
  unfold train, bind, gets. destruct (start_epoch s) as [e0|].
  - auto.
  - unfold raise. intros H; inversion H; auto.
Qed.

(** [main] as its three parts. *)
Lemma main_run a files w s r :
  main C a files w = (Some s, r) ->
  exists s0 s1 r1,
    setup C a files w = Ok s0 /\
    train C a (features_of C a files) (fpaths_of C files) s0 = (s1, r1) /\
    match r1 with
    | Ok _ => finish C a s1 = (s, r)
    | Err e => s = s1 /\ r = Err e
    end.
Proof.
  unfold main. destruct (setup C a files w) as [s0|e]; [|discriminate].
  unfold bind.
  destruct (train C a (features_of C a files) (fpaths_of C files) s0)
    as [s1 r1] eqn:Htrain.
  destruct r1 as [u|e].
  - destruct (finish C a s1) as [s2 r2] eqn:Hfin.
    intros H; inversion H; subst.
    do 3 eexists. split; [reflexivity|]. split; [exact Htrain|]. exact Hfin.
  - intros H; inversion H; subst.
    do 3 eexists. split; [reflexivity|]. split; [exact Htrain|].
    split; reflexivity.
Qed.

(** The whole run seen through its trace. *)
Lemma main_summary a files w s r :
  main C a files w = (Some s, r) ->
  best_of s = best_after (Fin 0, []) (scored (trace s)) /\
  baseline s = ema_from (Fin 0) (printed_means (trace s)) /\
  length (step_costs (trace s)) = length (printed_means (trace s)) /\
  (r = Ok tt ->
   resume a = EmptyString /\
   length (printed_means (trace s)) = Z.to_nat (max_epoch a)).
Proof.
  intros H. apply main_run in H as [s0 [s1 [r1 [Hset [Htrain Hfin]]]]].
  apply setup_run in Hset
    as [_ [_ [_ [Hb0 [Hbest0 [_ [_ [Htr0 Hres]]]]]]]].
  apply train_run in Htrain.
  assert (Hs1 : best_of s1 = best_after (Fin 0, []) (scored (trace s1)) /\
                baseline s1 = ema_from (Fin 0) (printed_means (trace s1)) /\
                length (step_costs (trace s1))
                = length (printed_means (trace s1)) /\
                (r1 = Ok tt ->
                 resume a = EmptyString /\
                 length (printed_means (trace s1)) = Z.to_nat (max_epoch a))).
  { destruct Hres as [[Hr [Hse _]] | [Hr [Hse _]]]; rewrite Hse in Htrain.
    - apply epochs_run in Htrain as [evs [Htr [Hbest [Hb [Hlen [_ Hok]]]]]].
      rewrite Htr0 in Htr. simpl in Htr. rewrite Htr, Hbest, Hb, Hbest0, Hb0.
      repeat split; auto.
      rewrite Z.sub_0_r in Hok. auto.
    - destruct Htrain as [-> ->]. rewrite Htr0, Hbest0, Hb0.
      repeat split; auto; discriminate. }
  destruct r1 as [[]|e].
  - destruct (finish_run a s1) as [s2 [Hf [[_ [_ [Hb _]]] [Hbest [Htr _]]]]].
    rewrite Hf in Hfin. inversion Hfin; subst.
    rewrite Hbest, Hb, Htr. destruct Hs1 as [H1 [H2 [H3 H4]]].
    repeat split; auto; apply H4; reflexivity.
  - destruct Hfin as [-> ->]. destruct Hs1 as [H1 [H2 [H3 H4]]].
    repeat split; auto; discriminate.
Qed.

(** One epoch in which no episode earns more than zero, started with the
    initial best pair. *)
Lemma epoch_quiet a feats fpaths e s s' r :
  epoch_body C a feats fpaths e s = (s', r) ->
  best_of s = (Fin 0, []) ->
  Forall (fun x => fle x (Fin 0) = true)
         (episode_rewards (events_since s s')) ->
  best_of s' = (Fin 0, []) /\
  r <> Err IndexError /\
  length (List.filter is_write (events_since s s'))
  = length (step_costs (events_since s s')) /\
  match step_costs (events_since s s') with
  | [] => selection s' = selection s
  | _ :: _ => selection s' !! record_path a = Some EmptyString
  end.
Proof.
  intros H Hbest0. apply epoch_run in H as [evs [Htr H]].
  rewrite (events_since_app _ _ _ Htr).
  cbn [episode_rewards step_costs List.filter is_write].
  destruct (forward C (params s) feats) as [probs|].
  2:{ destruct H as [-> [-> [[_ [_ [_ Hsel]]] Hbest]]]. simpl.
      rewrite Hbest. repeat split; auto; discriminate. }
  destruct (Bernoulli C probs) as [m|].
  2:{ destruct H as [-> [-> [[_ [_ [_ Hsel]]] Hbest]]]. simpl.
      rewrite Hbest. repeat split; auto; discriminate. }
  destruct H as [pre [Hq [Hbest [_ H]]]].
  destruct (episode_events_quiet pre Hq) as [Hs [_ [Hw _]]].
  destruct H as [[-> [-> [[_ [_ [_ Hsel]]] _]]] | [_ H]].
  { intros Hall. rewrite Hs, Hw, Hbest, Hbest0. simpl.
    split; [apply best_after_nothing_to_reward, Hall|].
    repeat split; auto; discriminate. }
  cbv zeta in H. destruct H as [_ [_ H]].
  intros Hall.
  assert (Hpre : Forall (fun x => fle x (Fin 0) = true) (episode_rewards pre)).
  { destruct (picked_ids fpaths (start_idx a) (best_pi s')) as [ids|].
    - destruct H as [_ [-> _]]. rewrite !episode_rewards_app in Hall.
      apply Forall_app in Hall. tauto.
    - destruct H as [_ ->]. rewrite !episode_rewards_app in Hall.
      apply Forall_app in Hall. tauto. }
  rewrite Hbest0 in Hbest.
  rewrite (best_after_nothing_to_reward pre Hpre) in Hbest.
  assert (Hpi : best_pi s' = []) by (inversion Hbest; auto).
  rewrite Hpi in H. cbn [picked_ids] in H. destruct H as [-> [-> Hsel]].
  rewrite !List.filter_app, !step_costs_app, Hs, Hw. simpl.
  repeat split; auto; discriminate.
Qed.

(** The epoch loop under the same conditions. *)
Lemma epochs_quiet a feats fpaths n : forall lo s s' r,
  for_range C n lo (epoch_body C a feats fpaths) s = (s', r) ->
  best_of s = (Fin 0, []) ->
  Forall (fun x => fle x (Fin 0) = true)
         (episode_rewards (events_since s s')) ->
  best_of s' = (Fin 0, []) /\
  r <> Err IndexError /\
  length (List.filter is_write (events_since s s'))
  = length (step_costs (events_since s s')) /\
  match step_costs (events_since s s') with
  | [] => selection s' = selection s
  | _ :: _ => selection s' !! record_path a = Some EmptyString
  end.
Proof.
  induction n as [|n IH]; intros lo s s' r H Hbest0 Hall.
  - inversion H; subst. unfold events_since. rewrite drop_all. simpl.
    repeat split; auto; discriminate.
  - cbn [for_range] in H. unfold bind in H.
    destruct (epoch_body C a feats fpaths lo s) as [s1 r1] eqn:Hep.
    destruct (epoch_summary _ _ _ _ _ _ _ Hep) as [evs1 [Htr1 _]].
    pose proof (epoch_quiet _ _ _ _ _ _ _ Hep Hbest0) as H1.
    rewrite (events_since_app _ _ _ Htr1) in H1.
    destruct r1 as [[]|err].
    + destruct (epochs_run _ _ _ _ _ _ _ _ H) as [evs2 [Htr2 _]].
      pose proof (IH _ _ _ _ H) as H2.
      rewrite (events_since_app _ _ _ Htr2) in H2.
      assert (Htr : trace s' = trace s ++ evs1 ++ evs2)
        by (rewrite Htr2, Htr1, app_assoc; reflexivity).
      rewrite (events_since_app _ _ _ Htr) in *.
      rewrite episode_rewards_app in Hall. apply Forall_app in Hall as [Ha1 Ha2].
      destruct (H1 Ha1) as [Hb1 [_ [Hw1 Hsel1]]].
      destruct (H2 Hb1 Ha2) as [Hb2 [Hr2 [Hw2 Hsel2]]].
      rewrite List.filter_app, step_costs_app, !length_app, Hw1, Hw2.
      split; [exact Hb2|]. split; [exact Hr2|]. split; [reflexivity|].
      destruct (step_costs evs2) as [|c2 cs2].
      * rewrite app_nil_r. rewrite Hsel2.
        destruct (step_costs evs1); [congruence | exact Hsel1].
      * destruct (step_costs evs1); exact Hsel2.
    + inversion H; subst. rewrite (events_since_app _ _ _ Htr1) in *.
      exact (H1 Hall).
Qed.

(** The epoch loop always gets to the first call of the reward function,
    once the network and the distribution have answered. *)
Lemma epochs_first_call a feats fpaths n lo s s' r probs m :
  for_range C (S n) lo (epoch_body C a feats fpaths) s = (s', r) ->
  forward C (params s) feats = Some probs ->
  Bernoulli C probs = Some m ->
  (0 < Z.to_nat (num_episode a))%nat ->
  let actions := (sample C m (rng s)).1 in
  exists rest,
    trace s' = trace s ++ EvForward :: EvSample actions
                 :: EvReward (number_of_picks a) :: rest /\
    (compute_reward C feats actions probs (classes a) (number_of_picks a) = None
     -> rest = [] /\ r = Err (Raised "compute_reward") /\ same_model s s').
Proof.
  intros H Hf Hb Hn actions. subst actions.
  cbn [for_range] in H. unfold bind in H.
  destruct (epoch_body C a feats fpaths lo s) as [s1 r1] eqn:Hep.
  apply epoch_run in Hep as [evs [Htr Hep]]. rewrite Hf, Hb in Hep.
  destruct Hep as [pre [_ [_ [Hfirst Hep]]]].
  destruct (Hfirst Hn) as [rest0 [Hpre Hnone]]. cbv zeta in Hnone.
  destruct Hep as [[-> [-> [Hm _]]] | [Hlen Hep]].
  - inversion H; subst s1 r; clear H.
    exists rest0. split; [rewrite Htr, Hpre; reflexivity|].
    intros Hcr. auto.
  - assert (Hsome : compute_reward C feats (sample C m (rng s)).1 probs
                      (classes a) (number_of_picks a) <> None).
    { intros Hcr. rewrite (Hnone Hcr) in Hpre. subst pre.
      simpl in Hlen. lia. }
    cbv zeta in Hep. destruct Hep as [_ [_ Hep]].
    assert (Hevs : exists t, evs = pre ++ t).
    { destruct (picked_ids fpaths (start_idx a) (best_pi s1)).
      - destruct Hep as [_ [-> _]]. eexists; reflexivity.
      - destruct Hep as [_ ->]. eexists; reflexivity. }
    destruct Hevs as [t ->].
    assert (Hgrow : exists u, trace s' = trace s1 ++ u).
    { destruct r1 as [[]|err].
      - apply epochs_run in H as [u [Hu _]]. exists u. exact Hu.
      - inversion H; subst. exists []. rewrite app_nil_r. reflexivity. }
    destruct Hgrow as [u Hu].
    exists (rest0 ++ t ++ u). split; [|intros Hcr; destruct (Hsome Hcr)].
    rewrite Hu, Htr, Hpre, <- !app_assoc. simpl.
    rewrite <- !app_assoc. reflexivity.
Qed.

End Runs.

(** ** The formulas of the specification against the folds of the code *)

Lemma ema_prefix (rs t : list num) (i : nat) :
  (i <= length rs)%nat -> ema (rs ++ t) i = ema rs i.
Proof.
  induction i as [|i IH]; intros Hi; [reflexivity|].
  cbn [ema]. rewrite IH by lia. rewrite app_nth1 by lia. reflexivity.
Qed.

(** The loop of line 144 computes the recurrence of the specification. *)
Lemma ema_from_zero (rs : list num) : ema_from (Fin 0) rs = ema rs (length rs).
Proof.
  induction rs as [|r rs IH] using rev_ind; [reflexivity|].
  rewrite ema_from_app, IH, length_app, Nat.add_1_r. cbn [ema].
  rewrite ema_prefix by lia. rewrite nth_middle. reflexivity.
Qed.

Lemma ema_from_closed (qs : list Q) (b : Q) :
  (ema_from (Fin b) (map Fin qs)
   ≈ Fin (qpow (9 # 10) (length qs) * b + ema_closed qs))%num.
Proof.
  revert b. induction qs as [|q qs IH]; intros b.
  - simpl. ring.
  - cbn [map ema_from fold_left]. unfold ema_from in IH.
    change (ema_step (Fin b) (Fin q))
      with (Fin ((9 # 10) * b + (1 # 10) * q)).
    rewrite IH. cbn [feq length qpow ema_closed]. ring.
Qed.

Lemma regularizer_val (a : args) (probs : list tensor) :
  val (regularizer a probs)
  = (beta a * ((fmean (map val probs) - Fin (1 # 2))
               * (fmean (map val probs) - Fin (1 # 2))))%num.
Proof. reflexivity. Qed.

Lemma picked_ids_Forall2 (fpaths : list string) (start : Z) (pi : list Z)
    (ids : list string) :
  picked_ids fpaths start pi = Some ids ->
  Forall2 (fun idx id => py_index fpaths (start + idx) = Some id) pi ids.
Proof.
  revert ids. induction pi as [|idx pi IH]; intros ids H; simpl in H.
  - inversion H; constructor.
  - destruct (py_index fpaths (start + idx)) as [id|] eqn:Hid; [|discriminate].
    destruct (picked_ids fpaths start pi) as [ids'|]; [|discriminate].
    inversion H; subst. constructor; auto.
Qed.

(** * The claims *)

Section Claims.

Context (C : Collab).

Implicit Types (s : state C) (a : args).

(** C1. In every epoch, the cost that the optimizer steps on equals the
    regularization term [beta * (mean(probabilities) - 0.5)^2] minus the
    sum, over the episodes of that epoch, of
    [log_probability_mean * (episode_reward - baseline)], with the baseline
    held at the start of the epoch; all [num_episode] episodes are in the
    sum. *)
Theorem epoch_cost_formula a feats fpaths e s s' r cost :
  epoch_body C a feats fpaths e s = (s', r) ->
  In cost (step_costs (events_since s s')) ->
  exists probs,
    forward C (params s) feats = Some probs /\
    length (scored (events_since s s')) = Z.to_nat (num_episode a) /\
    (val cost
     ≈ epoch_cost_spec (beta a) (fmean (map val probs)) (baseline s)
         (map (fun ep => (val ep.1.1, ep.1.2))
              (scored (events_since s s'))))%num.
Proof.
  intros H Hin. apply epoch_run in H as [evs [Htr H]].
  rewrite (events_since_app _ _ _ Htr) in *. cbn [step_costs scored] in *.
  destruct (forward C (params s) feats) as [probs|].
  2:{ destruct H as [_ [-> _]]. destruct Hin. }
  destruct (Bernoulli C probs) as [m|].
  2:{ destruct H as [_ [-> _]]. destruct Hin. }
  destruct H as [pre [Hq [_ [_ H]]]].
  destruct (episode_events_quiet pre Hq) as [Hs _].
  destruct H as [[_ [-> _]] | [Hlen H]].
  { rewrite Hs in Hin. destruct Hin. }
  cbv zeta in H. destruct H as [_ [_ H]].
  assert (Hevs : step_costs evs
                 = [cost_after (baseline s) (regularizer a probs) (scored pre)]
                 /\ scored evs = scored pre).
  { destruct (picked_ids fpaths (start_idx a) (best_pi s')) as [ids|].
    - destruct H as [_ [-> _]].
      rewrite !step_costs_app, !scored_app, Hs. simpl.
      rewrite app_nil_r. auto.
    - destruct H as [_ ->].
      rewrite !step_costs_app, !scored_app, Hs. simpl.
      rewrite app_nil_r. auto. }
  destruct Hevs as [Hsteps Hsc]. rewrite Hsteps in Hin. rewrite Hsc.
  destruct Hin as [<- | []].
  exists probs. split; [reflexivity|]. split; [exact Hlen|].
  rewrite cost_after_val, regularizer_val. unfold epoch_cost_spec.
  rewrite map_map. reflexivity.
Qed.

(** C2. The baseline starts at zero and, at any point a run has reached,
    equals the exponential moving average
    [baseline_i = 0.9 * baseline_(i-1) + 0.1 * r_i], [baseline_0 = 0], of
    the per-epoch mean rewards [r_1..r_n] printed so far: one update per
    optimizer step, no reset, and [max_epoch] updates in a run that
    ends well. *)
Theorem baseline_is_ema a files w s r :
  main C a files w = (Some s, r) ->
  let rs := printed_means (trace s) in
  (forall s0, setup C a files w = Ok s0 -> baseline s0 = Fin 0) /\
  baseline s = ema rs (length rs) /\
  (forall qs, rs = map Fin qs -> (baseline s ≈ Fin (ema_closed qs))%num) /\
  length (step_costs (trace s)) = length rs /\
  (r = Ok tt -> length rs = Z.to_nat (max_epoch a)).
Proof.
  intros H rs. apply main_summary in H as [_ [Hb [Hlen Hok]]].
  subst rs. split; [intros s0 Hs0; apply setup_run in Hs0; tauto|].
  rewrite <- ema_from_zero. split; [exact Hb|].
  split; [|split; [exact Hlen | intros Hr; apply Hok, Hr]].
  intros qs Hqs. rewrite Hb, Hqs, ema_from_closed.
  cbn [feq]. ring.
Qed.

(** C3. Over any stretch of the epoch loop, the best pair (best reward,
    best pick-indices) is the fold of lines 134 to 136 over the episodes
    scored in that stretch; an episode whose reward does not exceed the
    best reward, in particular one that equals it, leaves the pair as it
    is; so the pair either stays, or is the pair of one of these episodes
    with a strictly higher reward: the best reward never decreases. *)
Theorem best_only_on_strict_improvement a feats fpaths s s' r :
  train C a feats fpaths s = (s', r) ->
  best_of s' = best_after (best_of s) (scored (events_since s s')) /\
  (forall best ep, fgt ep.1.2 best.1 = false -> keep_best best ep = best) /\
  (forall best ep, (ep.1.2 ≈ best.1)%num -> keep_best best ep = best) /\
  (best_of s' = best_of s \/
   (fgt (best_reward s') (best_reward s) = true /\
    exists lp,
      In (lp, best_reward s', best_pi s') (scored (events_since s s')))).
Proof.
  intros H. apply train_run in H.
  assert (Hfold : best_of s' = best_after (best_of s) (scored (events_since s s'))).
  { destruct (start_epoch s) as [e0|].
    - apply epochs_run in H as [evs [Htr [Hbest _]]].
      rewrite (events_since_app _ _ _ Htr). exact Hbest.
    - destruct H as [-> _]. unfold events_since.
      rewrite drop_all. reflexivity. }
  split; [exact Hfold|].
  split; [intros best ep Hgt; unfold keep_best; rewrite Hgt; reflexivity|].
  split; [intros best ep Heq; unfold keep_best;
          rewrite (fgt_feq_false _ _ Heq); reflexivity|].
  destruct (best_after_cases (best_of s) (scored (events_since s s')))
    as [Heq | [Hgt [lp Hin]]].
  - left. rewrite Hfold. exact Heq.
  - right. rewrite <- Hfold in Hgt, Hin. split; [exact Hgt|].
    exists lp. exact Hin.
Qed.

(** C4. An epoch changes the policy parameters at most once, by one
    optimizer step; an epoch that ends well takes exactly one. The step
    comes after all [num_episode] episodes of the epoch were sampled and
    scored, on the parameters the epoch started with, and the gradient it
    applies is the gradient of the regularization term minus the sum of
    the gradients of the episodes' terms. Without a step the parameters
    are those the epoch started with. *)
Theorem one_optimizer_step_per_epoch a feats fpaths e s s' r :
  epoch_body C a feats fpaths e s = (s', r) ->
  let evs := events_since s s' in
  (length (step_costs evs) <= 1)%nat /\
  (r = Ok tt -> length (step_costs evs) = 1%nat) /\
  (step_costs evs = [] -> params s' = params s /\ opt s' = opt s) /\
  (forall cost, In cost (step_costs evs) ->
   exists probs pre post,
     forward C (params s) feats = Some probs /\
     evs = EvForward :: pre ++ EvStep cost :: post /\
     forallb is_episode_event pre = true /\
     length (scored pre) = Z.to_nat (num_episode a) /\
     forallb (fun ev => negb (is_episode_event ev)) post = true /\
     (opt s', params s') = optim_step C (opt s) (params s) (grad cost) /\
     forall i,
       (grad cost i
        ≈ grad (regularizer a probs) i
          - fsum (map (fun ep => grad ep.1.1 i * (ep.1.2 - baseline s))
                      (scored pre)))%num).
Proof.
  intros H evs. apply epoch_run in H as [evs' [Htr H]].
  subst evs. rewrite (events_since_app _ _ _ Htr). cbn [step_costs].
  destruct (forward C (params s) feats) as [probs|].
  2:{ destruct H as [-> [-> [[Hp [Ho _]] _]]]. simpl.
      repeat split; auto; try discriminate. intros cost []. }
  destruct (Bernoulli C probs) as [m|].
  2:{ destruct H as [-> [-> [[Hp [Ho _]] _]]]. simpl.
      repeat split; auto; try discriminate. intros cost []. }
  destruct H as [pre [Hq [_ [_ H]]]].
  destruct (episode_events_quiet pre Hq) as [Hs _].
  destruct H as [[-> [-> [[Hp [Ho _]] _]]] | [Hlen H]].
  { rewrite Hs. simpl. repeat split; auto; try discriminate. intros cost []. }
  cbv zeta in H. destruct H as [Hopt [_ H]].
  set (cost0 := cost_after (baseline s) (regularizer a probs) (scored pre)) in *.
  assert (Hevs : step_costs evs' = [cost0] /\
                 exists post, evs' = pre ++ EvStep cost0 :: post /\
                   forallb (fun ev => negb (is_episode_event ev)) post = true).
  { destruct (picked_ids fpaths (start_idx a) (best_pi s')) as [ids|].
    - destruct H as [_ [-> _]].
      rewrite !step_costs_app, Hs. split; [reflexivity|].
      eexists. split; reflexivity.
    - destruct H as [_ ->].
      rewrite !step_costs_app, Hs. split; [reflexivity|].
      eexists. split; reflexivity. }
  destruct Hevs as [Hsteps [post [Hevs Hpost]]]. rewrite Hsteps.
  split; [simpl; lia|]. split; [reflexivity|]. split; [discriminate|].
  intros cost [<- | []].
  exists probs, pre, post. rewrite Hevs.
  repeat split; auto.
  intros i. apply cost_after_grad.
Qed.


(** C6, as the code has it. A reward or a mean log-probability that is
    not finite does not stop the run: [main] has no finiteness check. In
    an epoch whose episodes were all scored, if one of them had such a
    value, the optimizer step is still taken, on a cost that is not
    finite; a reward that is not finite makes the baseline not finite;
    and the epoch ends well, or with the [IndexError] of the selection
    write. *)
Theorem nonfinite_value_does_not_abort a feats fpaths e s s' r lp reward pi :
  epoch_body C a feats fpaths e s = (s', r) ->
  let evs := events_since s s' in
  length (scored evs) = Z.to_nat (num_episode a) ->
  In (lp, reward, pi) (scored evs) ->
  is_finite reward = false \/ is_finite (val lp) = false ->
  (exists cost,
     step_costs evs = [cost] /\ is_finite (val cost) = false /\
     (opt s', params s') = optim_step C (opt s) (params s) (grad cost)) /\
  (is_finite reward = false -> is_finite (baseline s') = false) /\
  (r = Ok tt \/ r = Err IndexError).
Proof.
  intros H evs. apply epoch_run in H as [evs' [Htr H]].
  subst evs. rewrite (events_since_app _ _ _ Htr). cbn [scored step_costs].
  intros Hall Hin Hbad.
  destruct (forward C (params s) feats) as [probs|].
  2:{ destruct H as [_ [-> _]]. destruct Hin. }
  destruct (Bernoulli C probs) as [m|].
  2:{ destruct H as [_ [-> _]]. destruct Hin. }
  destruct H as [pre [Hq [_ [_ H]]]].
  destruct (episode_events_quiet pre Hq) as [Hs _].
  destruct H as [[_ [-> [_ Hlen]]] | [Hlen H]]; [lia|].
  cbv zeta in H. destruct H as [Hopt [Hb H]].
  set (cost0 := cost_after (baseline s) (regularizer a probs) (scored pre)) in *.
  set (mean := fmean (map (fun ep => ep.1.2) (scored pre))) in *.
  assert (Hevs : step_costs evs' = [cost0] /\ scored evs' = scored pre /\
                 (r = Ok tt \/ r = Err IndexError)).
  { destruct (picked_ids fpaths (start_idx a) (best_pi s')) as [ids|].
    - destruct H as [-> [-> _]].
      rewrite !step_costs_app, !scored_app, Hs. simpl.
      rewrite app_nil_r. auto.
    - destruct H as [-> ->].
      rewrite !step_costs_app, !scored_app, Hs. simpl.
      rewrite app_nil_r. auto. }
  destruct Hevs as [Hsteps [Hsc Hr]]. rewrite Hsc in Hin.
  split; [|split; [|exact Hr]].
  - exists cost0. split; [exact Hsteps|]. split; [|exact Hopt].
    destruct (is_finite (val cost0)) eqn:Hfin; [exfalso | reflexivity].
    apply cost_after_finite in Hfin as [_ Hfin].
    rewrite List.Forall_forall in Hfin. apply Hfin in Hin. simpl in Hin.
    destruct Hin as [Hl Hrw]. destruct Hbad; congruence.
  - intros Hrw. rewrite Hb.
    destruct (is_finite (ema_step (baseline s) mean)) eqn:Hfin;
      [exfalso | reflexivity].
    apply ema_step_finite in Hfin as [_ Hfin]. apply fmean_finite in Hfin.
    rewrite List.Forall_forall in Hfin.
    assert (Hm : In reward (map (fun ep => ep.1.2) (scored pre))).
    { apply (List.in_map (fun ep : tensor * num * list Z => ep.1.2)) in Hin.
      exact Hin. }
    apply Hfin in Hm. congruence.
Qed.



(** C9. With a non-empty resume path the run fails before any epoch: if
    the setup gets through, the loop header reads [start_epoch], which
    only the branch without resume assigns, and raises; nothing was
    computed, sampled, stepped or written. *)
Theorem resume_never_trains a files w :
  resume a <> EmptyString ->
  (exists err, (main C a files w).2 = Err err) /\
  forall s, (main C a files w).1 = Some s ->
    (main C a files w).2 = Err (UnboundLocalError "start_epoch") /\
    trace s = [] /\
    w_ckpts w !! resume a = Some (params s).
Proof.
  intros Hres.
  destruct (main C a files w) as [[s|] r] eqn:Hmain.
  - apply main_run in Hmain as [s0 [s1 [r1 [Hset [Htrain Hfin]]]]].
    apply setup_run in Hset as [_ [_ [_ [_ [_ [_ [_ [Htr0 Hcase]]]]]]]].
    destruct Hcase as [[Habs _] | [_ [Hse Hp]]]; [contradiction|].
    apply train_run in Htrain. rewrite Hse in Htrain.
    destruct Htrain as [-> ->]. destruct Hfin as [-> ->]. simpl.
    split; [eexists; reflexivity|].
    intros s' Hs'; inversion Hs'; subst. auto.
  - unfold main in Hmain.
    destruct (setup C a files w) as [s0|err] eqn:Hset.
    + match type of Hmain with
      | (let (_, _) := ?x in _) = _ => destruct x
      end. discriminate.
    + inversion Hmain; subst. simpl.
      split; [eexists; reflexivity | discriminate].
Qed.

(** C10. As long as no episode of the run has earned more than zero, the
    best pair is the initial one, with no pick-indices; every epoch that
    took its optimizer step also wrote its selection record, the run did
    not end with the [IndexError] of that write, and from the first such
    epoch on the record is the empty file. *)
Theorem nothing_rewarded_empty_record a files w s r :
  main C a files w = (Some s, r) ->
  Forall (fun x => fle x (Fin 0) = true) (episode_rewards (trace s)) ->
  best_reward s = Fin 0 /\ best_pi s = [] /\
  r <> Err IndexError /\
  length (List.filter is_write (trace s)) = length (step_costs (trace s)) /\
  (step_costs (trace s) <> [] ->
   selection s !! record_path a = Some (record_content [])).
Proof.
  intros Hmain Hall.
  apply main_run in Hmain as [s0 [s1 [r1 [Hset [Htrain Hfin]]]]].
  apply setup_run in Hset as [_ [_ [_ [_ [Hbest0 [_ [_ [Htr0 Hcase]]]]]]]].
  apply train_run in Htrain.
  assert (Hs1 : trace s = trace s1 /\ best_of s = best_of s1 /\
                selection s = selection s1 /\ (r1 <> Err IndexError -> r <> Err IndexError)).
  { destruct r1 as [[]|err].
    - destruct (finish_run C a s1) as [s2 [Hf [[_ [_ [_ Hsel]]] [Hb [Htr _]]]]].
      rewrite Hf in Hfin. inversion Hfin; subst. auto.
    - destruct Hfin as [-> ->]. auto. }
  destruct Hs1 as [Htr [Hbest [Hsel Hr]]]. rewrite Htr in *.
  rewrite Hsel.
  assert (Hgoal : best_of s1 = (Fin 0, []) /\ r1 <> Err IndexError /\
            length (List.filter is_write (trace s1))
            = length (step_costs (trace s1)) /\
            (step_costs (trace s1) <> [] ->
             selection s1 !! record_path a = Some EmptyString)).
  { destruct Hcase as [[_ [Hse _]] | [_ [Hse _]]]; rewrite Hse in Htrain.
    - assert (Hev : events_since s0 s1 = trace s1)
        by (unfold events_since; rewrite Htr0; reflexivity).
      apply epochs_quiet in Htrain; [|exact Hbest0 | rewrite Hev; exact Hall].
      rewrite Hev in Htrain. destruct Htrain as [H1 [H2 [H3 H4]]].
      repeat split; auto.
      destruct (step_costs (trace s1)); [congruence | auto].
    - destruct Htrain as [-> ->]. rewrite Htr0. simpl.
      repeat split; auto; try discriminate. congruence. }
  destruct Hgoal as [H1 [H2 [H3 H4]]].
  rewrite H1 in Hbest. unfold best_of in Hbest. injection Hbest as Hbr Hbp.
  repeat split; auto.
Qed.

End Claims.

(** * The claims on concrete runs *)

Import Toy.

Local Abbreviation Cm := (toy mask_reward).
Local Abbreviation a122 := (toy_args 1 2 2 EmptyString).
Local Abbreviation a222 := (toy_args 2 2 2 EmptyString).
Local Abbreviation sm := (toy_state mask_reward).
Local Abbreviation epoch_m :=
  (epoch_body Cm a122 toy_feats toy_fpaths 0 sm).
Local Abbreviation train_m :=
  (train Cm a222 toy_feats toy_fpaths sm).

Lemma epoch_cost_formula_witness :
  In (first_cost (step_costs (events_since sm epoch_m.1)))
     (step_costs (events_since sm epoch_m.1)) /\
  exists probs,
    forward Cm (params sm) toy_feats = Some probs /\
    length (scored (events_since sm epoch_m.1)) = Z.to_nat (num_episode a122) /\
    (val (first_cost (step_costs (events_since sm epoch_m.1)))
     ≈ epoch_cost_spec (beta a122) (fmean (map val probs)) (baseline sm)
         (map (fun ep => (val ep.1.1, ep.1.2))
              (scored (events_since sm epoch_m.1))))%num.
Proof.
  assert (Hin : In (first_cost (step_costs (events_since sm epoch_m.1)))
                   (step_costs (events_since sm epoch_m.1)))
    by (vm_compute; left; reflexivity).
  split; [exact Hin|].
  exact (epoch_cost_formula Cm a122 toy_feats toy_fpaths 0 sm
           epoch_m.1 epoch_m.2 _ (surjective_pairing epoch_m) Hin).
Defined.

Local Abbreviation wm := (toy_world mask_reward).
Local Abbreviation run_m := (main Cm a222 toy_files wm).
Local Abbreviation final_m := (toy_final mask_reward a222).

Lemma baseline_is_ema_witness :
  run_m = (Some final_m, run_m.2) /\
  let rs := printed_means (trace final_m) in
  (forall s0, setup Cm a222 toy_files wm = Ok s0 -> baseline s0 = Fin 0) /\
  baseline final_m = ema rs (length rs) /\
  (forall qs, rs = map Fin qs -> (baseline final_m ≈ Fin (ema_closed qs))%num) /\
  length (step_costs (trace final_m)) = length rs /\
  (run_m.2 = Ok tt -> length rs = Z.to_nat (max_epoch a222)).
Proof.
  assert (Hrun : run_m = (Some final_m, run_m.2)) by (vm_compute; reflexivity).
  split; [exact Hrun|].
  exact (baseline_is_ema Cm a222 toy_files wm final_m run_m.2 Hrun).
Defined.

Lemma best_only_on_strict_improvement_witness :
  train_m = (train_m.1, train_m.2) /\
  best_of train_m.1
  = best_after (best_of sm) (scored (events_since sm train_m.1)) /\
  (forall best ep, fgt ep.1.2 best.1 = false -> keep_best best ep = best) /\
  (forall best ep, (ep.1.2 ≈ best.1)%num -> keep_best best ep = best) /\
  (best_of train_m.1 = best_of sm \/
   (fgt (best_reward train_m.1) (best_reward sm) = true /\
    exists lp,
      In (lp, best_reward train_m.1, best_pi train_m.1)
         (scored (events_since sm train_m.1)))).
Proof.
  split; [exact (surjective_pairing train_m)|].
  exact (best_only_on_strict_improvement Cm a222 toy_feats toy_fpaths sm
           train_m.1 train_m.2 (surjective_pairing train_m)).
Defined.

Lemma one_optimizer_step_per_epoch_witness :
  epoch_m = (epoch_m.1, epoch_m.2) /\
  let evs := events_since sm epoch_m.1 in
  (length (step_costs evs) <= 1)%nat /\
  (epoch_m.2 = Ok tt -> length (step_costs evs) = 1%nat) /\
  (step_costs evs = [] ->
   params epoch_m.1 = params sm /\ opt epoch_m.1 = opt sm) /\
  (forall cost, In cost (step_costs evs) ->
   exists probs pre post,
     forward Cm (params sm) toy_feats = Some probs /\
     evs = EvForward :: pre ++ EvStep cost :: post /\
     forallb is_episode_event pre = true /\
     length (scored pre) = Z.to_nat (num_episode a122) /\
     forallb (fun ev => negb (is_episode_event ev)) post = true /\
     (opt epoch_m.1, params epoch_m.1)
     = optim_step Cm (opt sm) (params sm) (grad cost) /\
     forall i,
       (grad cost i
        ≈ grad (regularizer a122 probs) i
          - fsum (map (fun ep => grad ep.1.1 i * (ep.1.2 - baseline sm))
                      (scored pre)))%num).
Proof.
  split; [exact (surjective_pairing epoch_m)|].
  exact (one_optimizer_step_per_epoch Cm a122 toy_feats toy_fpaths 0 sm
           epoch_m.1 epoch_m.2 (surjective_pairing epoch_m)).
Defined.


Local Abbreviation Cn := (toy nan_reward).
Local Abbreviation sn := (toy_state nan_reward).
Local Abbreviation epoch_n :=
  (epoch_body Cn a122 toy_feats toy_fpaths 0 sn).
Local Abbreviation ep_n := (first_episode (scored (events_since sn epoch_n.1))).

(** A run whose every reward is NaN goes through both of its epochs and
    ends well: two optimizer steps on costs that are not finite, a
    baseline that is NaN, parameters updated twice. *)
Lemma nan_reward_run_completes :
  toy_run nan_reward (toy_args 2 1 2 EmptyString)
  = (Some (toy_final nan_reward (toy_args 2 1 2 EmptyString)), Ok tt) /\
  episode_rewards (trace (toy_final nan_reward (toy_args 2 1 2 EmptyString)))
  = [NaN; NaN] /\
  map (fun c => is_finite (val c))
      (step_costs (trace (toy_final nan_reward (toy_args 2 1 2 EmptyString))))
  = [false; false] /\
  baseline (toy_final nan_reward (toy_args 2 1 2 EmptyString)) = NaN /\
  params (toy_final nan_reward (toy_args 2 1 2 EmptyString)) = 2%nat /\
  length (List.filter is_write
            (trace (toy_final nan_reward (toy_args 2 1 2 EmptyString))))
  = 2%nat.
Proof. vm_compute. repeat split; reflexivity. Qed.

Lemma nonfinite_value_does_not_abort_witness :
  (epoch_n = (epoch_n.1, epoch_n.2) /\
   length (scored (events_since sn epoch_n.1)) = Z.to_nat (num_episode a122) /\
   In (ep_n.1.1, ep_n.1.2, ep_n.2) (scored (events_since sn epoch_n.1)) /\
   is_finite ep_n.1.2 = false) /\
  (exists cost,
     step_costs (events_since sn epoch_n.1) = [cost] /\
     is_finite (val cost) = false /\
     (opt epoch_n.1, params epoch_n.1)
     = optim_step Cn (opt sn) (params sn) (grad cost)) /\
  (is_finite ep_n.1.2 = false -> is_finite (baseline epoch_n.1) = false) /\
  (epoch_n.2 = Ok tt \/ epoch_n.2 = Err IndexError).
Proof.
  assert (Hlen : length (scored (events_since sn epoch_n.1))
                 = Z.to_nat (num_episode a122)) by (vm_compute; reflexivity).
  assert (Hin : In (ep_n.1.1, ep_n.1.2, ep_n.2)
                   (scored (events_since sn epoch_n.1)))
    by (vm_compute; left; reflexivity).
  assert (Hbad : is_finite ep_n.1.2 = false) by (vm_compute; reflexivity).
  split; [exact (conj (surjective_pairing epoch_n) (conj Hlen (conj Hin Hbad)))|].
  exact (nonfinite_value_does_not_abort Cn a122 toy_feats toy_fpaths 0 sn
           epoch_n.1 epoch_n.2 ep_n.1.1 ep_n.1.2 ep_n.2
           (surjective_pairing epoch_n) Hlen Hin (or_introl Hbad)).
Defined.

Local Abbreviation Cg := (toy guarded_reward).
Local Abbreviation wg := (toy_world guarded_reward).
Local Abbreviation a220 := (toy_args 2 2 0 EmptyString).
Local Abbreviation a227 := (toy_args 2 2 7 EmptyString).
Local Abbreviation probs_g :=
  (default [] (forward Cg (DSN Cg (classes a220) (hidden_dim a220) (w_rng wg)).1
                       (features_of Cg a220 toy_files))).



Local Abbreviation a_res := (toy_args 2 2 2 "ck.pth").


Lemma resume_never_trains_witness :
  resume a_res <> EmptyString /\
  (exists err, (main Cm a_res toy_files wm).2 = Err err) /\
  forall s, (main Cm a_res toy_files wm).1 = Some s ->
    (main Cm a_res toy_files wm).2 = Err (UnboundLocalError "start_epoch") /\
    trace s = [] /\
    w_ckpts wm !! resume a_res = Some (params s).
Proof.
  assert (Hres : resume a_res <> EmptyString) by discriminate.
  split; [exact Hres|].
  exact (resume_never_trains Cm a_res toy_files wm Hres).
Defined.

Local Abbreviation Cz := (toy zero_reward).
Local Abbreviation wz := (toy_world zero_reward).
Local Abbreviation run_z := (main Cz a222 toy_files wz).
Local Abbreviation final_z := (toy_final zero_reward a222).

Lemma nothing_rewarded_empty_record_witness :
  (run_z = (Some final_z, run_z.2) /\
   Forall (fun x => fle x (Fin 0) = true) (episode_rewards (trace final_z)) /\
   length (episode_rewards (trace final_z)) = 4%nat) /\
  best_reward final_z = Fin 0 /\ best_pi final_z = [] /\
  run_z.2 <> Err IndexError /\
  length (List.filter is_write (trace final_z))
  = length (step_costs (trace final_z)) /\
  (step_costs (trace final_z) <> [] ->
   selection final_z !! record_path a222 = Some (record_content [])).
Proof.
  assert (Hrun : run_z = (Some final_z, run_z.2)) by (vm_compute; reflexivity).
  assert (Hall : Forall (fun x => fle x (Fin 0) = true)
                        (episode_rewards (trace final_z)))
    by (vm_compute; repeat constructor).
  assert (Hlen : length (episode_rewards (trace final_z)) = 4%nat)
    by (vm_compute; reflexivity).
  split; [exact (conj Hrun (conj Hall Hlen))|].
  exact (nothing_rewarded_empty_record Cz a222 toy_files wz final_z run_z.2
           Hrun Hall).
Defined.

(** * Further properties of [main] *)

(** ** Relations kept by every step of a computation *)

Section FrameRules.

Context (C : Collab) (R : state C -> state C -> Prop).
Context (R_refl : forall s, R s s).
Context (R_trans : forall s1 s2 s3, R s1 s2 -> R s2 s3 -> R s1 s3).

Lemma preserves_ret {A} (x : A) : preserves R (ret C x).
Proof. intros s s' r H. inversion H; subst. apply R_refl. Qed.

Lemma preserves_raise {A} (e : exn) : preserves R (raise C (A := A) e).
Proof. intros s s' r H. inversion H; subst. apply R_refl. Qed.

Lemma preserves_lift {A} (origin : string) (o : option A) :
  preserves R (lift C origin o).
Proof.
  intros s s' r H. unfold lift in H.
  destruct o; inversion H; subst; apply R_refl.
Qed.

Lemma preserves_gets {A} (f : state C -> A) : preserves R (gets C f).
Proof. intros s s' r H. inversion H; subst. apply R_refl. Qed.

Lemma preserves_modify (f : state C -> state C) :
  (forall s, R s (f s)) -> preserves R (modify C f).
Proof. intros Hf s s' r H. inversion H; subst. apply Hf. Qed.

Lemma preserves_bind {A B} (m : M C A) (k : A -> M C B) :
  preserves R m -> (forall x, preserves R (k x)) -> preserves R (bind C m k).
Proof.
  intros Hm Hk s s' r H. unfold bind in H.
  destruct (m s) as [s1 [x|e]] eqn:Hms.
  - eapply R_trans; [eapply Hm; exact Hms | eapply Hk; exact H].
  - inversion H; subst. eapply Hm; exact Hms.
Qed.

Lemma preserves_repeatM {A} (n : nat) (body : A -> M C A) :
  (forall x, preserves R (body x)) ->
  forall x, preserves R (repeatM C n body x).
Proof.
  intros Hb. induction n as [|n IH]; intros x; cbn [repeatM].
  - apply preserves_ret.
  - apply preserves_bind; [apply Hb | exact IH].
Qed.

Lemma preserves_for_range (n : nat) (body : Z -> M C unit) :
  (forall i, preserves R (body i)) ->
  forall lo, preserves R (for_range C n lo body).
Proof.
  intros Hb. induction n as [|n IH]; intros lo; cbn [for_range].
  - apply preserves_ret.
  - apply preserves_bind; [apply Hb | intros _; apply IH].
Qed.

Lemma preserves_for_each {A} (l : list A) (body : A -> M C unit) :
  (forall x, preserves R (body x)) -> preserves R (for_each C l body).
Proof.
  intros Hb. induction l as [|x l IH]; cbn [for_each].
  - apply preserves_ret.
  - apply preserves_bind; [apply Hb | intros _; exact IH].
Qed.

End FrameRules.

(** ** The files that training leaves alone *)

Section Files.

Context (C : Collab).

Implicit Types (s : state C) (a : args).

Lemma same_files_refl path s : same_files path s s.
Proof. unfold same_files. auto. Qed.

Lemma same_files_trans path s1 s2 s3 :
  same_files path s1 s2 -> same_files path s2 s3 -> same_files path s1 s3.
Proof.
  intros [H1 [H2 H3]] [H4 [H5 H6]]. unfold same_files.
  repeat split; try congruence.
  intros k Hk. rewrite (H6 k Hk). apply H3, Hk.
Qed.

Lemma draw_same_files path m : preserves (same_files path) (draw C m).
Proof.
  intros s s' r H. unfold draw in H.
  destruct (sample C m (rng s)). inversion H; subst.
  unfold same_files; simpl; auto.
Qed.

(** One step through a computation whose assignments leave the files
    alone. *)
Ltac frame_step path :=
  first
    [ apply (preserves_ret C _ (same_files_refl path))
    | apply (preserves_raise C _ (same_files_refl path))
    | apply (preserves_lift C _ (same_files_refl path))
    | apply (preserves_gets C _ (same_files_refl path))
    | apply draw_same_files
    | apply (preserves_bind C _ (same_files_trans path)); [|intros ?]
    | match goal with
      | |- preserves _ (let (_, _) := ?p in _) => destruct p
      end
    | apply preserves_modify; intros ?; unfold same_files;
      repeat match goal with
             | |- context [let (_, _) := ?p in _] => destruct p
             | |- context [if ?b then _ else _] => destruct b
             end;
      simpl; solve [auto] ].

Lemma episode_same_files path a seq probs m acc :
  preserves (same_files path) (episode C a seq probs m acc).
Proof.
  unfold episode, emit, track_best. repeat frame_step path.
Qed.

Lemma write_selection_same_files a fpaths :
  preserves (same_files (record_path a)) (write_selection C a fpaths).
Proof.
  assert (Hins : forall (c : string) s,
             same_files (record_path a) s
               (set_selection C (<[record_path a := c]> (selection s)) s)).
  { intros c s. unfold same_files; simpl. repeat split; auto.
    intros k Hk. apply lookup_insert_ne. congruence. }
  unfold write_selection, emit.
  apply (preserves_bind C _ (same_files_trans (record_path a)));
    [apply preserves_modify; intros ?; apply Hins|].
  intros _. frame_step (record_path a); [frame_step (record_path a)|].
  frame_step (record_path a); [|frame_step (record_path a)].
  apply (preserves_for_each C _ (same_files_refl (record_path a))
           (same_files_trans (record_path a))).
  intros idx. destruct (py_index fpaths (start_idx a + idx)).
  - unfold file_write. apply preserves_modify. intros ?. apply Hins.
  - frame_step (record_path a).
Qed.

Lemma epoch_same_files a feats fpaths e :
  preserves (same_files (record_path a)) (epoch_body C a feats fpaths e).
Proof.
  unfold epoch_body, optimizer_step, update_baseline, emit.
  repeat first
    [ apply write_selection_same_files
    | apply (preserves_repeatM C _ (same_files_refl (record_path a))
               (same_files_trans (record_path a)));
      intros ?; apply episode_same_files
    | frame_step (record_path a) ].
Qed.

Lemma train_same_files a feats fpaths :
  preserves (same_files (record_path a)) (train C a feats fpaths).
Proof.
  unfold train. frame_step (record_path a); [frame_step (record_path a)|].
  match goal with |- preserves _ (match ?x with _ => _ end) => destruct x end;
    [|frame_step (record_path a)].
  apply (preserves_for_range C _ (same_files_refl (record_path a))
           (same_files_trans (record_path a))).
  intros i. apply epoch_same_files.
Qed.

End Files.

(** ** Indices, identifiers and the selection write *)

Lemma py_index_is_Some {A} (l : list A) (i : Z) :
  is_Some (py_index l i)
  <-> (- Z.of_nat (length l) <= i < Z.of_nat (length l))%Z.
Proof.
  unfold py_index. repeat case_decide.
  - rewrite lookup_lt_is_Some. lia.
  - rewrite lookup_lt_is_Some. lia.
  - split; [intros [x Hx]; discriminate | lia].
Qed.

Lemma picked_ids_written (fpaths : list string) (start : Z) (pi : list Z)
    (ids : list string) :
  picked_ids fpaths start pi = Some ids -> written_ids fpaths start pi = ids.
Proof.
  revert ids. induction pi as [|idx pi IH]; intros ids H; simpl in *.
  - congruence.
  - destruct (py_index fpaths (start + idx)) as [id|]; [|discriminate].
    destruct (picked_ids fpaths start pi) as [ids'|]; [|discriminate].
    inversion H; subst. f_equal. apply IH. reflexivity.
Qed.

Lemma picked_ids_in_range (fpaths : list string) (start : Z) (pi : list Z) :
  is_Some (picked_ids fpaths start pi)
  <-> Forall (fun idx => - Z.of_nat (length fpaths) <= start + idx
                         < Z.of_nat (length fpaths))%Z pi.
Proof.
  induction pi as [|idx pi IH]; simpl.
  - split; [constructor | eauto].
  - rewrite Forall_cons, <- IH, <- py_index_is_Some.
    destruct (py_index fpaths (start + idx)) as [id|].
    + destruct (picked_ids fpaths start pi); simpl.
      * split; eauto.
      * split; [intros [x Hx]; discriminate | intros [_ [x Hx]]; discriminate].
    + split; [intros [x Hx]; discriminate | intros [[x Hx] _]; discriminate].
Qed.

Lemma written_ids_length (fpaths : list string) (start : Z) (pi : list Z) :
  (length (written_ids fpaths start pi) <= length pi)%nat /\
  (picked_ids fpaths start pi = None ->
   (length (written_ids fpaths start pi) < length pi)%nat).
Proof.
  induction pi as [|idx pi [IH1 IH2]]; simpl.
  - split; [lia | discriminate].
  - destruct (py_index fpaths (start + idx)) as [id|]; simpl.
    + split; [lia|]. destruct (picked_ids fpaths start pi); [discriminate|].
      intros _. specialize (IH2 eq_refl). lia.
    + split; [lia | intros _; lia].
Qed.

(** ** The best pair as a running maximum *)

Lemma fgt_asym (a b : num) : fgt a b = true -> fgt b a = false.
Proof.
  destruct a as [a| | |], b as [b| | |]; simpl; auto; try discriminate.
  rewrite negb_true_iff, negb_false_iff, <- not_true_iff_false, !Qle_bool_iff.
  intros H. apply Qlt_le_weak, Qnot_le_lt, H.
Qed.

Lemma fgt_false_above (x b b' : num) :
  fgt x b = false -> fgt b' b = true -> fgt x b' = false.
Proof.
  destruct x as [x| | |], b as [b| | |], b' as [b'| | |]; simpl; auto;
    try discriminate.
  rewrite !negb_false_iff, negb_true_iff, <- not_true_iff_false, !Qle_bool_iff.
  intros H1 H2. apply Qnot_le_lt in H2.
  eapply Qle_trans; [exact H1 | apply Qlt_le_weak, H2].
Qed.

(** No reward that was folded in, and not the pair started from, exceeds
    the best reward. *)
Lemma best_after_upper (best : num * list Z)
    (eps : list (tensor * num * list Z)) :
  fgt best.1 (best_after best eps).1 = false /\
  Forall (fun ep => fgt ep.1.2 (best_after best eps).1 = false) eps.
Proof.
  revert best. induction eps as [|ep eps IH]; intros best.
  - split; [apply fgt_irrefl | constructor].
  - change (best_after best (ep :: eps))
      with (best_after (keep_best best ep) eps).
    destruct (IH (keep_best best ep)) as [H1 H2].
    assert (Hk : fgt best.1 (keep_best best ep).1 = false /\
                 fgt ep.1.2 (keep_best best ep).1 = false).
    { unfold keep_best. destruct (fgt ep.1.2 best.1) eqn:Hgt; simpl.
      - split; [apply fgt_asym, Hgt | apply fgt_irrefl].
      - split; [apply fgt_irrefl | exact Hgt]. }
    destruct Hk as [Hk1 Hk2].
    destruct (best_after_cases (keep_best best ep) eps) as [Heq | [Hgt _]].
    + rewrite Heq. split; [exact Hk1 | constructor; [exact Hk2|]].
      rewrite Heq in H2. exact H2.
    + split; [eapply fgt_false_above; eauto|].
      constructor; [eapply fgt_false_above; eauto | exact H2].
Qed.

Lemma fgt_feq_l (a a' b : num) : (a ≈ a')%num -> fgt a b = fgt a' b.
Proof.
  destruct a as [a| | |], a' as [a'| | |], b as [b| | |]; simpl; auto;
    try contradiction.
  intros H. f_equal. apply eq_true_iff_eq. rewrite !Qle_bool_iff, H.
  reflexivity.
Qed.

(** When the best pair was replaced, it is the pair of the first episode
    that reached the best reward: no earlier episode equals or exceeds
    it. *)
Lemma best_after_first (best : num * list Z)
    (eps : list (tensor * num * list Z)) :
  fgt (best_after best eps).1 best.1 = true ->
  exists pre lp post,
    eps = pre ++ (lp, (best_after best eps).1, (best_after best eps).2) :: post
    /\ Forall (fun ep => fgt ep.1.2 (best_after best eps).1 = false /\
                         ~ (ep.1.2 ≈ (best_after best eps).1)%num) pre.
Proof.
  induction eps as [|ep eps IH] using rev_ind; intros Hgt.
  - simpl in Hgt. rewrite fgt_irrefl in Hgt. discriminate.
  - rewrite best_after_app in *.
    change (best_after (best_after best eps) [ep])
      with (keep_best (best_after best eps) ep) in *.
    unfold keep_best in *.
    destruct (fgt ep.1.2 (best_after best eps).1) eqn:Hep; simpl in *.
    + exists eps, ep.1.1, []. split; [destruct ep as [[? ?] ?]; reflexivity|].
      destruct (best_after_upper best eps) as [_ Hall].
      eapply Forall_impl; [exact Hall|]. intros e He. simpl in He. split.
      * eapply fgt_false_above; eauto.
      * intros Heq. rewrite (fgt_feq_l _ _ _ Heq) in He. congruence.
    + destruct (IH Hgt) as [pre [lp [post [Heps Hall]]]].
      exists pre, lp, (post ++ [ep]). split; [|exact Hall].
      rewrite Heps at 1. rewrite <- app_assoc. reflexivity.
Qed.

(** ** The baseline between the bounds of the rewards *)

Lemma ema_from_bounded (M b : Q) (means : list num) :
  0 <= b <= M ->
  Forall (fun m => exists q, m = Fin q /\ 0 <= q <= M) means ->
  exists b', ema_from (Fin b) means = Fin b' /\ 0 <= b' <= M.
Proof.
  revert b. induction means as [|m means IH]; intros b Hb Hall.
  - exists b. auto.
  - inversion Hall as [|? ? [q [-> Hq]] Hrest]; subst.
    change (ema_from (Fin b) (Fin q :: means))
      with (ema_from (Fin ((9 # 10) * b + (1 # 10) * q)) means).
    apply IH; [|exact Hrest]. lra.
Qed.

(** ** The epoch lines *)

Lemma printed_epochs_app (t u : list event) :
  printed_epochs (t ++ u) = printed_epochs t ++ printed_epochs u.
Proof.
  induction t as [|e t IH]; simpl; [reflexivity|].
  destruct e; simpl; rewrite IH; reflexivity.
Qed.

Lemma episode_events_no_epoch_line (t : list event) :
  forallb is_episode_event t = true -> printed_epochs t = [].
Proof.
  induction t as [|e t IH]; simpl; [auto|].
  intros H. apply andb_true_iff in H as [He Ht].
  destruct e; try discriminate; simpl; auto.
Qed.

Section Extras.

Context (C : Collab).

Implicit Types (s : state C) (a : args).

(** What the write loop leaves in the file, whether it gets through or
    raises. *)
Lemma write_lines_prefix a fpaths pi : forall s s' r c,
  selection s !! record_path a = Some c ->
  for_each C pi (fun idx =>
    match py_index fpaths (start_idx a + idx) with
    | Some id => file_write C (record_path a) (id +:+ newline)%string
    | None => raise C IndexError
    end) s = (s', r) ->
  selection s' !! record_path a
  = Some (c +:+ record_content (written_ids fpaths (start_idx a) pi))%string.
Proof.
  induction pi as [|idx pi IH]; intros s s' r c Hc H.
  - inversion H; subst. simpl. rewrite append_nil_r. exact Hc.
  - cbn [for_each written_ids] in *. unfold bind in H.
    destruct (py_index fpaths (start_idx a + idx)) as [id|].
    + unfold file_write in H. unfold modify in H at 1.
      cbn [selection set_selection] in H. rewrite Hc in H. cbn [default] in H.
      eapply IH in H; [|simpl; apply lookup_insert_eq].
      rewrite H. f_equal.
      change (record_content (id :: ?l))
        with (id +:+ newline +:+ record_content l)%string.
      rewrite !append_assoc. reflexivity.
    + inversion H; subst. simpl. rewrite append_nil_r. exact Hc.
Qed.

(** X1. With a start offset that is not negative, the feature sequence is
    the loaded features from that offset on, and the identifier that the
    selection write looks up for a position of the sequence is the path of
    the file that position was loaded from. *)
Theorem picked_index_names_its_file a files idx :
  (0 <= start_idx a)%Z ->
  (0 <= idx < Z.of_nat (length (features_of C a files)))%Z ->
  features_of C a files
  = drop (Z.to_nat (start_idx a)) (features_all_of C files) /\
  exists p f,
    files !! Z.to_nat (start_idx a + idx) = Some (p, f) /\
    features_of C a files !! Z.to_nat idx = Some f /\
    py_index (fpaths_of C files) (start_idx a + idx) = Some p.
Proof.
  intros Hstart.
  assert (Hdrop : features_of C a files
                  = drop (Z.to_nat (start_idx a)) (features_all_of C files)).
  { unfold features_of, py_slice, py_bound.
    set (l := features_all_of C files). set (n := Z.of_nat (length l)).
    repeat case_decide; try lia.
    rewrite (Z.min_r (start_idx a + n) n) by lia.
    destruct (Z.le_ge_cases (start_idx a) n) as [Hle|Hge].
    - rewrite Z.min_l by lia. apply take_ge. rewrite length_drop. lia.
    - rewrite Z.min_r by lia. rewrite !drop_ge by lia.
      apply take_nil. }
  rewrite Hdrop. intros Hidx. split; [reflexivity|].
  rewrite length_drop in Hidx. unfold features_all_of in *.
  rewrite length_fmap in Hidx.
  destruct (lookup_lt_is_Some_2 files (Z.to_nat (start_idx a + idx)))
    as [[p f] Hpf]; [lia|].
  exists p, f. split; [exact Hpf|]. split.
  - rewrite lookup_drop, list_lookup_fmap.
    replace (Z.to_nat (start_idx a) + Z.to_nat idx)%nat
      with (Z.to_nat (start_idx a + idx)) by lia.
    rewrite Hpf. reflexivity.
  - unfold py_index, fpaths_of. rewrite length_fmap.
    case_decide; [|lia]. rewrite list_lookup_fmap, Hpf. reflexivity.
Qed.

(** X2. A start offset at or beyond the number of files, or a negative
    one down to minus that number, leaves an empty feature sequence. *)
Theorem start_outside_leaves_no_features a files :
  (Z.of_nat (length files) <= start_idx a \/
   - Z.of_nat (length files) <= start_idx a < 0)%Z ->
  features_of C a files = [].
Proof.
  intros H. unfold features_of, py_slice, py_bound, features_all_of.
  rewrite length_fmap. set (n := Z.of_nat (length files)) in *.
  destruct H as [H|H]; repeat case_decide; try lia.
  - rewrite (Z.min_r (start_idx a) n) by lia.
    rewrite drop_ge by (rewrite length_fmap; lia). apply take_nil.
  - rewrite Z.max_l by lia. rewrite Z.min_l by lia.
    rewrite Z.sub_diag. reflexivity.
Qed.

(** X3. The selection write ends well exactly when every index of the
    best pick-indices, shifted by the start offset, lies in [-n, n) for
    [n] identifiers; otherwise it raises [IndexError] with the file left
    open. Either way the file holds the identifiers of the indices before
    the first one out of range, one per line. *)
Theorem selection_write_outcome a fpaths s s' r :
  write_selection C a fpaths s = (s', r) ->
  let n := Z.of_nat (length fpaths) in
  let in_range := fun idx => (- n <= start_idx a + idx < n)%Z in
  let written := written_ids fpaths (start_idx a) (best_pi s) in
  selection s' !! record_path a = Some (record_content written) /\
  (Forall in_range (best_pi s) ->
   r = Ok tt /\ last (trace s') = Some (EvWrite (record_path a)) /\
   length written = length (best_pi s)) /\
  (~ Forall in_range (best_pi s) ->
   r = Err IndexError /\ trace s' = trace s /\
   (length written < length (best_pi s))%nat).
Proof.
  intros H n in_range written. subst n in_range written.
  pose proof (picked_ids_in_range fpaths (start_idx a) (best_pi s)) as Hrange.
  pose proof (written_ids_length fpaths (start_idx a) (best_pi s)) as [_ Hlt].
  split.
  - revert H. unfold write_selection. unfold bind at 1 2.
    unfold modify at 1, gets. cbn [best_pi set_selection]. unfold bind.
    match goal with
    | |- context [for_each C ?pi ?body ?s0] =>
        destruct (for_each C pi body s0) as [s1 r1] eqn:Hfor
    end.
    apply (write_lines_prefix a fpaths _ _ _ _ EmptyString) in Hfor;
      [|simpl; apply lookup_insert_eq].
    destruct r1 as [[]|e]; unfold emit, modify; intros H; inversion H; subst;
      simpl; exact Hfor.
  - apply write_selection_run in H as [_ [_ H]].
    destruct (picked_ids fpaths (start_idx a) (best_pi s)) as [ids|] eqn:Hids.
    + destruct H as [-> [Htr _]]. split.
      * intros _. split; [reflexivity|]. split; [rewrite Htr; apply last_snoc|].
        rewrite (picked_ids_written _ _ _ _ Hids).
        apply picked_ids_Forall2, Forall2_length in Hids. auto.
      * intros Hn. exfalso. apply Hn, Hrange. eauto.
    + destruct H as [-> Htr]. split.
      * intros Hall. apply Hrange in Hall as [x Hx]. discriminate.
      * intros _. auto.
Qed.

(** The files at the end of a run that got through its setup. *)
Lemma main_files a files w s r :
  main C a files w = (Some s, r) ->
  (forall k, k <> record_path a -> selection s !! k = None) /\
  match r with
  | Ok _ => ckpts s = <[model_save_path a := params s]> (w_ckpts w)
  | Err _ => ckpts s = w_ckpts w
  end.
Proof.
  intros H. apply main_run in H as [s0 [s1 [r1 [Hset [Htrain Hfin]]]]].
  apply setup_run in Hset as [_ [_ [_ [_ [_ [Hck0 [Hsel0 _]]]]]]].
  apply train_same_files in Htrain as [Hck [_ Hsel]].
  assert (Hs1 : forall k, k <> record_path a -> selection s1 !! k = None).
  { intros k Hk. rewrite (Hsel k Hk), Hsel0. apply lookup_empty. }
  destruct r1 as [[]|e].
  - unfold finish, save_checkpoint, bind, gets, modify in Hfin.
    inversion Hfin; subst; clear Hfin. simpl.
    split; [exact Hs1|]. rewrite Hck, Hck0. reflexivity.
  - destruct Hfin as [-> ->]. split; [exact Hs1|]. congruence.
Qed.





(** X8. With [num_episode <= 0] an epoch that gets through scores no
    episode: it steps on the regularization term alone, leaves the best
    pair as it is, and, the mean of no reward being NaN, sets the
    baseline to NaN. *)
Theorem no_episode_epoch a feats fpaths e s s' r cost :
  (num_episode a <= 0)%Z ->
  epoch_body C a feats fpaths e s = (s', r) ->
  In cost (step_costs (events_since s s')) ->
  (exists probs,
     forward C (params s) feats = Some probs /\ cost = regularizer a probs) /\
  scored (events_since s s') = [] /\
  best_of s' = best_of s /\
  baseline s' = NaN.
Proof.
  intros Hn H Hin. apply epoch_run in H as [evs [Htr H]].
  rewrite (events_since_app _ _ _ Htr) in *. cbn [step_costs scored] in *.
  destruct (forward C (params s) feats) as [probs|].
  2:{ destruct H as [_ [-> _]]. destruct Hin. }
  destruct (Bernoulli C probs) as [m|].
  2:{ destruct H as [_ [-> _]]. destruct Hin. }
  destruct H as [pre [Hq [Hbest [_ H]]]].
  destruct (episode_events_quiet pre Hq) as [Hs _].
  destruct H as [[_ [-> _]] | [Hlen H]].
  { rewrite Hs in Hin. destruct Hin. }
  replace (Z.to_nat (num_episode a)) with O in Hlen by lia.
  apply length_zero_iff_nil in Hlen. rewrite Hlen in *.
  cbv zeta in H. destruct H as [_ [Hb H]].
  assert (Hevs : step_costs evs = [regularizer a probs] /\ scored evs = []).
  { destruct (picked_ids fpaths (start_idx a) (best_pi s')) as [ids|].
    - destruct H as [_ [-> _]].
      rewrite !step_costs_app, !scored_app, Hs, Hlen. auto.
    - destruct H as [_ ->].
      rewrite !step_costs_app, !scored_app, Hs, Hlen. auto. }
  destruct Hevs as [Hsteps Hsc]. rewrite Hsteps in Hin.
  destruct Hin as [<- | []].
  split; [exists probs; auto|]. split; [exact Hsc|]. split; [exact Hbest|].
  rewrite Hb. unfold ema_step. cbn [map fmean fsum fold_left length fdiv_nat].
  destruct (baseline s); reflexivity.
Qed.

(** X9. At any point a run has reached, the best reward is a running
    maximum: it is not below zero, the value it starts from, no scored
    episode has a reward above it, and it is never NaN. *)
Theorem best_reward_is_running_maximum a files w s r :
  main C a files w = (Some s, r) ->
  fgt (Fin 0) (best_reward s) = false /\
  Forall (fun x => fgt x (best_reward s) = false) (episode_rewards (trace s)) /\
  best_reward s <> NaN.
Proof.
  intros H. apply main_summary in H as [Hbest _].
  destruct (best_after_upper (Fin 0, []) (scored (trace s))) as [H0 Hall].
  rewrite <- Hbest in H0, Hall. unfold best_of in H0, Hall. simpl in H0, Hall.
  split; [exact H0|]. split.
  - rewrite episode_rewards_scored. apply Forall_map. exact Hall.
  - intros Hnan.
    destruct (best_after_cases (Fin 0, []) (scored (trace s)))
      as [Heq | [Hgt _]].
    + rewrite <- Hbest in Heq. unfold best_of in Heq.
      injection Heq as Hr _. congruence.
    + rewrite <- Hbest in Hgt. unfold best_of in Hgt. simpl in Hgt.
      rewrite Hnan in Hgt. discriminate.
Qed.


(** One epoch through its epoch line and its episodes. *)
Lemma epoch_log a feats fpaths e s s' r :
  epoch_body C a feats fpaths e s = (s', r) ->
  exists evs,
    trace s' = trace s ++ evs /\
    ((printed_epochs evs = [] /\ r <> Ok tt) \/
     (printed_epochs evs = [((e + 1)%Z, max_epoch a)] /\
      length (scored evs) = Z.to_nat (num_episode a))).
Proof.
  intros H. apply epoch_run in H as [evs [Htr H]].
  exists (EvForward :: evs). split; [exact Htr|]. cbn [printed_epochs scored].
  destruct (forward C (params s) feats) as [probs|].
  2:{ destruct H as [-> [-> _]]. left. split; [reflexivity | discriminate]. }
  destruct (Bernoulli C probs) as [m|].
  2:{ destruct H as [-> [-> _]]. left. split; [reflexivity | discriminate]. }
  destruct H as [pre [Hq [_ [_ H]]]].
  pose proof (episode_events_no_epoch_line pre Hq) as Hpe.
  destruct H as [[-> [-> _]] | [Hlen H]].
  { left. split; [exact Hpe | discriminate]. }
  right. cbv zeta in H. destruct H as [_ [_ H]].
  destruct (picked_ids fpaths (start_idx a) (best_pi s')) as [ids|].
  - destruct H as [_ [-> _]].
    rewrite !printed_epochs_app, !scored_app, Hpe. simpl.
    rewrite app_nil_r. auto.
  - destruct H as [_ ->].
    rewrite !printed_epochs_app, !scored_app, Hpe. simpl.
    rewrite app_nil_r. auto.
Qed.

(** The epoch loop through its epoch lines and its episodes. *)
Lemma epochs_log a feats fpaths n : forall lo s s' r,
  for_range C n lo (epoch_body C a feats fpaths) s = (s', r) ->
  exists evs k,
    trace s' = trace s ++ evs /\
    printed_epochs evs = epoch_lines (max_epoch a) lo k /\
    (k <= n)%nat /\
    (r = Ok tt ->
     k = n /\ length (scored evs) = (n * Z.to_nat (num_episode a))%nat).
Proof.
  induction n as [|n IH]; intros lo s s' r H.
  - inversion H; subst. exists [], O. rewrite app_nil_r. simpl. auto.
  - cbn [for_range] in H. unfold bind in H.
    destruct (epoch_body C a feats fpaths lo s) as [s1 r1] eqn:Hep.
    apply epoch_log in Hep as [evs1 [Htr1 Hep]].
    destruct r1 as [[]|err].
    + destruct Hep as [[_ Habs] | [Hpe1 Hsc1]]; [congruence|].
      apply IH in H as [evs2 [k [Htr2 [Hpe2 [Hk Hok]]]]].
      exists (evs1 ++ evs2), (S k).
      split; [rewrite Htr2, Htr1, app_assoc; reflexivity|].
      rewrite printed_epochs_app, Hpe1, Hpe2, scored_app, length_app, Hsc1.
      split; [reflexivity|]. split; [lia|].
      intros Hr. destruct (Hok Hr) as [-> Hsc2]. split; [reflexivity | lia].
    + inversion H; subst.
      destruct Hep as [[Hpe1 _] | [Hpe1 _]].
      * exists evs1, O. rewrite Hpe1. simpl.
        repeat split; auto; try lia; discriminate.
      * exists evs1, 1%nat. rewrite Hpe1. simpl.
        repeat split; auto; try lia; discriminate.
Qed.

(** X11. The epoch lines that a run without resume path has printed are
    numbered 1, 2, ... without a gap, each with [max_epoch] as its total;
    a run that ends well has printed [max_epoch] of them and has scored
    [max_epoch * num_episode] episodes. *)
Theorem epoch_lines_are_consecutive a files w s r :
  resume a = EmptyString ->
  main C a files w = (Some s, r) ->
  exists k,
    printed_epochs (trace s) = epoch_lines (max_epoch a) 0 k /\
    (k <= Z.to_nat (max_epoch a))%nat /\
    (r = Ok tt ->
     k = Z.to_nat (max_epoch a) /\
     length (episode_rewards (trace s))
     = (Z.to_nat (max_epoch a) * Z.to_nat (num_episode a))%nat).
Proof.
  intros Hres H. apply main_run in H as [s0 [s1 [r1 [Hset [Htrain Hfin]]]]].
  apply setup_run in Hset as [_ [_ [_ [_ [_ [_ [_ [Htr0 Hcase]]]]]]]].
  destruct Hcase as [[_ [Hse _]] | [Hne _]]; [|contradiction].
  apply train_run in Htrain. rewrite Hse, Z.sub_0_r in Htrain.
  apply epochs_log in Htrain as [evs [k [Htr [Hpe [Hk Hok]]]]].
  rewrite Htr0 in Htr. simpl in Htr.
  assert (Hs : trace s = evs /\ (r = Ok tt -> r1 = Ok tt)).
  { destruct r1 as [[]|err].
    - destruct (finish_run C a s1) as [s2 [Hf [_ [_ [Htr2 _]]]]].
      rewrite Hf in Hfin. inversion Hfin; subst. split; [congruence | auto].
    - destruct Hfin as [-> ->]. split; [exact Htr | discriminate]. }
  destruct Hs as [-> Hr]. exists k. split; [exact Hpe|]. split; [exact Hk|].
  intros Hrok. destruct (Hok (Hr Hrok)) as [-> Hsc]. split; [reflexivity|].
  rewrite episode_rewards_scored, length_map. exact Hsc.
Qed.

(** X12. An epoch that fails inside a collaborator (the network, the
    distribution or the reward function) has changed neither the
    parameters, nor the optimizer, nor the baseline, nor any selection
    record, and has taken no optimizer step. *)
Theorem collaborator_failure_leaves_model a feats fpaths e s s' origin :
  epoch_body C a feats fpaths e s = (s', Err (Raised origin)) ->
  params s' = params s /\ opt s' = opt s /\ baseline s' = baseline s /\
  selection s' = selection s /\
  step_costs (events_since s s') = [] /\
  printed_means (events_since s s') = [].
Proof.
  intros H. apply epoch_run in H as [evs [Htr H]].
  rewrite (events_since_app _ _ _ Htr). cbn [step_costs printed_means].
  destruct (forward C (params s) feats) as [probs|].
  2:{ destruct H as [_ [-> [[Hp [Ho [Hb Hsel]]] _]]]. simpl. auto 10. }
  destruct (Bernoulli C probs) as [m|].
  2:{ destruct H as [_ [-> [[Hp [Ho [Hb Hsel]]] _]]]. simpl. auto 10. }
  destruct H as [pre [Hq [_ [_ H]]]].
  destruct (episode_events_quiet pre Hq) as [Hs [Hpm _]].
  destruct H as [[_ [-> [[Hp [Ho [Hb Hsel]]] _]]] | [_ H]].
  { rewrite Hs, Hpm. auto 10. }
  cbv zeta in H. destruct H as [_ [_ H]].
  destruct (picked_ids fpaths (start_idx a) (best_pi s'));
    destruct H as [Habs _]; discriminate.
Qed.

(** X13. An epoch that ends with the [IndexError] of the selection write
    has already taken its optimizer step and updated its baseline: the
    model is one step ahead of the record on disk, which was not
    closed. *)
Theorem write_failure_comes_after_update a feats fpaths e s s' :
  epoch_body C a feats fpaths e s = (s', Err IndexError) ->
  exists probs cost,
    forward C (params s) feats = Some probs /\
    step_costs (events_since s s') = [cost] /\
    (opt s', params s') = optim_step C (opt s) (params s) (grad cost) /\
    baseline s'
    = ema_step (baseline s) (fmean (episode_rewards (events_since s s'))) /\
    List.filter is_write (events_since s s') = [] /\
    picked_ids fpaths (start_idx a) (best_pi s') = None.
Proof.
  intros H. apply epoch_run in H as [evs [Htr H]].
  rewrite (events_since_app _ _ _ Htr).
  cbn [step_costs episode_rewards List.filter is_write].
  destruct (forward C (params s) feats) as [probs|];
    [|destruct H as [H _]; discriminate].
  destruct (Bernoulli C probs) as [m|];
    [|destruct H as [H _]; discriminate].
  destruct H as [pre [Hq [_ [_ [[H _] | [_ H]]]]]]; [discriminate|].
  destruct (episode_events_quiet pre Hq) as [Hs [_ [Hw _]]].
  cbv zeta in H. destruct H as [Hopt [Hb H]].
  destruct (picked_ids fpaths (start_idx a) (best_pi s')) as [ids|];
    [destruct H as [H _]; discriminate|].
  destruct H as [_ ->].
  exists probs. eexists. split; [reflexivity|].
  rewrite !step_costs_app, !episode_rewards_app, !List.filter_app, Hs, Hw.
  cbn [step_costs episode_rewards List.filter is_write app].
  rewrite app_nil_r, episode_rewards_scored.
  split; [reflexivity|]. split; [exact Hopt|]. split; [exact Hb|]. auto.
Qed.

(** X14. Whatever the start offset, the feature sequence is a contiguous
    stretch of the loaded features, in the order they were loaded. *)
Theorem features_are_a_stretch a files :
  exists before after,
    features_all_of C files = before ++ features_of C a files ++ after.
Proof.
  unfold features_of, py_slice.
  set (l := features_all_of C files).
  set (j := Z.to_nat (py_bound (Z.of_nat (length l)) (start_idx a))).
  set (k := Z.to_nat _).
  exists (take j l), (drop k (drop j l)).
  rewrite (take_drop k (drop j l)). rewrite take_drop. reflexivity.
Qed.

(** X15. When the best pair is not the initial one, it is the reward and
    the pick-indices of the first episode of the run that reached the best
    reward: no earlier episode has a reward equal to it or above it, so
    among episodes with the same reward the earliest one is kept. *)
Theorem best_pair_is_first_to_reach a files w s r :
  main C a files w = (Some s, r) ->
  fgt (best_reward s) (Fin 0) = true ->
  exists pre lp post,
    scored (trace s) = pre ++ (lp, best_reward s, best_pi s) :: post /\
    Forall (fun ep => fgt ep.1.2 (best_reward s) = false /\
                      ~ (ep.1.2 ≈ best_reward s)%num) pre.
Proof.
  intros H Hgt. apply main_summary in H as [Hbest _].
  pose proof (best_after_first (Fin 0, []) (scored (trace s))) as Hfirst.
  rewrite <- Hbest in Hfirst. unfold best_of in Hfirst. simpl in Hfirst.
  exact (Hfirst Hgt).
Qed.

End Extras.

(** * The further properties on concrete runs *)

Lemma picked_index_names_its_file_witness :
  ((0 <= start_idx (toy_args_at 1))%Z /\
   (0 <= 1 < Z.of_nat (length (features_of Cm (toy_args_at 1) Toy.toy_files)))%Z) /\
  features_of Cm (toy_args_at 1) Toy.toy_files
  = drop (Z.to_nat (start_idx (toy_args_at 1)))
         (features_all_of Cm Toy.toy_files) /\
  exists p f,
    Toy.toy_files !! Z.to_nat (start_idx (toy_args_at 1) + 1) = Some (p, f) /\
    features_of Cm (toy_args_at 1) Toy.toy_files !! Z.to_nat 1 = Some f /\
    py_index (fpaths_of Cm Toy.toy_files) (start_idx (toy_args_at 1) + 1)
    = Some p.
Proof.
  assert (H1 : (0 <= start_idx (toy_args_at 1))%Z) by (vm_compute; discriminate).
  assert (H2 : (0 <= 1 < Z.of_nat (length (features_of Cm (toy_args_at 1)
                                             Toy.toy_files)))%Z)
    by (vm_compute; split; [discriminate | reflexivity]).
  split; [exact (conj H1 H2)|].
  exact (picked_index_names_its_file Cm (toy_args_at 1) Toy.toy_files 1 H1 H2).
Defined.

Lemma start_outside_leaves_no_features_witness :
  (Z.of_nat (length Toy.toy_files) <= start_idx (toy_args_at (-2)) \/
   - Z.of_nat (length Toy.toy_files) <= start_idx (toy_args_at (-2)) < 0)%Z /\
  features_of Cm (toy_args_at (-2)) Toy.toy_files = [].
Proof.
  assert (H : (Z.of_nat (length Toy.toy_files) <= start_idx (toy_args_at (-2)) \/
               - Z.of_nat (length Toy.toy_files)
               <= start_idx (toy_args_at (-2)) < 0)%Z)
    by (right; vm_compute; split; [discriminate | reflexivity]).
  split; [exact H|].
  exact (start_outside_leaves_no_features Cm (toy_args_at (-2)) Toy.toy_files H).
Defined.

Local Abbreviation write_m := (write_selection Cm a122 toy_fpaths sm).

Lemma selection_write_outcome_witness :
  write_m = (write_m.1, write_m.2) /\
  let n := Z.of_nat (length toy_fpaths) in
  let in_range := fun idx => (- n <= start_idx a122 + idx < n)%Z in
  let written := written_ids toy_fpaths (start_idx a122) (best_pi sm) in
  selection write_m.1 !! record_path a122 = Some (record_content written) /\
  (Forall in_range (best_pi sm) ->
   write_m.2 = Ok tt /\
   last (trace write_m.1) = Some (EvWrite (record_path a122)) /\
   length written = length (best_pi sm)) /\
  (~ Forall in_range (best_pi sm) ->
   write_m.2 = Err IndexError /\ trace write_m.1 = trace sm /\
   (length written < length (best_pi sm))%nat).
Proof.
  split; [exact (surjective_pairing write_m)|].
  exact (selection_write_outcome Cm a122 toy_fpaths sm write_m.1 write_m.2
           (surjective_pairing write_m)).
Defined.

Local Abbreviation a022 := (toy_args 0 2 2 EmptyString).


Local Abbreviation run_g := (main Cg a220 Toy.toy_files wg).
Local Abbreviation final_g := (toy_final guarded_reward a220).



Local Abbreviation run_res := (main Cm a_res Toy.toy_files wm).
Local Abbreviation final_res := (toy_final mask_reward a_res).


Local Abbreviation a102 := (toy_args 1 0 2 EmptyString).
Local Abbreviation epoch_0 :=
  (epoch_body Cm a102 toy_feats toy_fpaths 0 sm).
Local Abbreviation cost_0 :=
  (first_cost (step_costs (events_since sm epoch_0.1))).

Lemma no_episode_epoch_witness :
  ((num_episode a102 <= 0)%Z /\
   epoch_0 = (epoch_0.1, epoch_0.2) /\
   In cost_0 (step_costs (events_since sm epoch_0.1))) /\
  (exists probs,
     forward Cm (params sm) toy_feats = Some probs /\
     cost_0 = regularizer a102 probs) /\
  scored (events_since sm epoch_0.1) = [] /\
  best_of epoch_0.1 = best_of sm /\
  baseline epoch_0.1 = NaN.
Proof.
  assert (H1 : (num_episode a102 <= 0)%Z) by (vm_compute; discriminate).
  assert (H2 : In cost_0 (step_costs (events_since sm epoch_0.1)))
    by (vm_compute; left; reflexivity).
  split; [exact (conj H1 (conj (surjective_pairing epoch_0) H2))|].
  exact (no_episode_epoch Cm a102 toy_feats toy_fpaths 0 sm epoch_0.1
           epoch_0.2 cost_0 H1 (surjective_pairing epoch_0) H2).
Defined.

Lemma best_reward_is_running_maximum_witness :
  run_m = (Some final_m, run_m.2) /\
  fgt (Fin 0) (best_reward final_m) = false /\
  Forall (fun x => fgt x (best_reward final_m) = false)
         (episode_rewards (trace final_m)) /\
  best_reward final_m <> NaN.
Proof.
  assert (H : run_m = (Some final_m, run_m.2)) by (vm_compute; reflexivity).
  split; [exact H|].
  exact (best_reward_is_running_maximum Cm a222 Toy.toy_files wm final_m
           run_m.2 H).
Defined.


Lemma epoch_lines_are_consecutive_witness :
  (resume a222 = EmptyString /\ run_m = (Some final_m, run_m.2)) /\
  exists k,
    printed_epochs (trace final_m) = epoch_lines (max_epoch a222) 0 k /\
    (k <= Z.to_nat (max_epoch a222))%nat /\
    (run_m.2 = Ok tt ->
     k = Z.to_nat (max_epoch a222) /\
     length (episode_rewards (trace final_m))
     = (Z.to_nat (max_epoch a222) * Z.to_nat (num_episode a222))%nat).
Proof.
  assert (H1 : resume a222 = EmptyString) by reflexivity.
  assert (H2 : run_m = (Some final_m, run_m.2)) by (vm_compute; reflexivity).
  split; [exact (conj H1 H2)|].
  exact (epoch_lines_are_consecutive Cm a222 Toy.toy_files wm final_m run_m.2
           H1 H2).
Defined.

Local Abbreviation a120 := (toy_args 1 2 0 EmptyString).
Local Abbreviation sg := (toy_state guarded_reward).
Local Abbreviation epoch_g :=
  (epoch_body Cg a120 toy_feats toy_fpaths 0 sg).

Lemma collaborator_failure_leaves_model_witness :
  epoch_g = (epoch_g.1, Err (Raised "compute_reward")) /\
  params epoch_g.1 = params sg /\ opt epoch_g.1 = opt sg /\
  baseline epoch_g.1 = baseline sg /\
  selection epoch_g.1 = selection sg /\
  step_costs (events_since sg epoch_g.1) = [] /\
  printed_means (events_since sg epoch_g.1) = [].
Proof.
  assert (H : epoch_g = (epoch_g.1, Err (Raised "compute_reward")))
    by (vm_compute; reflexivity).
  split; [exact H|].
  exact (collaborator_failure_leaves_model Cg a120 toy_feats toy_fpaths 0 sg
           epoch_g.1 "compute_reward" H).
Defined.

Local Abbreviation a127 := (toy_args 1 2 7 EmptyString).
Local Abbreviation epoch_7 :=
  (epoch_body Cm a127 toy_feats toy_fpaths 0 sm).

Lemma write_failure_comes_after_update_witness :
  epoch_7 = (epoch_7.1, Err IndexError) /\
  exists probs cost,
    forward Cm (params sm) toy_feats = Some probs /\
    step_costs (events_since sm epoch_7.1) = [cost] /\
    (opt epoch_7.1, params epoch_7.1)
    = optim_step Cm (opt sm) (params sm) (grad cost) /\
    baseline epoch_7.1
    = ema_step (baseline sm)
               (fmean (episode_rewards (events_since sm epoch_7.1))) /\
    List.filter is_write (events_since sm epoch_7.1) = [] /\
    picked_ids toy_fpaths (start_idx a127) (best_pi epoch_7.1) = None.
Proof.
  assert (H : epoch_7 = (epoch_7.1, Err IndexError))
    by (vm_compute; reflexivity).
  split; [exact H|].
  exact (write_failure_comes_after_update Cm a127 toy_feats toy_fpaths 0 sm
           epoch_7.1 H).
Defined.

Lemma best_pair_is_first_to_reach_witness :
  (run_m = (Some final_m, run_m.2) /\
   fgt (best_reward final_m) (Fin 0) = true) /\
  exists pre lp post,
    scored (trace final_m) = pre ++ (lp, best_reward final_m, best_pi final_m)
                                    :: post /\
    Forall (fun ep => fgt ep.1.2 (best_reward final_m) = false /\
                      ~ (ep.1.2 ≈ best_reward final_m)%num) pre.
Proof.
  assert (H : run_m = (Some final_m, run_m.2)) by (vm_compute; reflexivity).
  assert (Hgt : fgt (best_reward final_m) (Fin 0) = true)
    by (vm_compute; reflexivity).
  split; [exact (conj H Hgt)|].
  exact (best_pair_is_first_to_reach Cm a222 Toy.toy_files wm final_m run_m.2
           H Hgt).
Defined.
